(** * Elevated Plus Maze analysis pipeline: a shallow embedding

    The script [EPM_Full_Analysis_FIXED.py] turns a wide table into long-form
    records, runs one paired test per (Parameter, Group) cell, corrects the
    raw p-values per group with Holm's procedure, and derives subject-level
    tables.  This file embeds the decision logic of that script:

    - [parse_column]               (lines 48-65)
    - [paired_stats]               (lines 96-114)
    - the statistics loop          (lines 120-139)
    - the Holm loop                (lines 150-156)
    - the locomotion-control loop  (lines 217-231)
    - the within-subject loop      (lines 311-332)

    Cell values are IEEE binary64 numbers, as in numpy: they are Rocq's
    primitive floats, so that division by zero, infinities and NaN behave as
    they do in the script.  The numerical routines of scipy and numpy
    (Shapiro-Wilk, the paired t statistic, the Wilcoxon statistic, mean,
    standard deviation, the group mean of a pivot) are not part of the
    script; they are the fields of the class [StatsLib], wrapped in the
    argument checks their libraries perform before computing. *)

From Stdlib Require Import String Ascii List Bool Arith Lia ZArith.
From Stdlib Require Import Floats Uint63 Permutation Sorted.
Import ListNotations.

Set Warnings "-inexact-float".
Local Open Scope string_scope.

(* ================================================================== *)
(** * Outcomes of Python code: a value, or a raised exception *)
(* ================================================================== *)

Inductive exn : Type :=
| ValueError
| KeyError
| ZeroDivisionError.

Inductive outcome (A : Type) : Type :=
| Returns (a : A)
| Raises (e : exn).

Arguments Returns {A} a.
Arguments Raises {A} e.

Definition bind {A B : Type} (m : outcome A) (k : A -> outcome B) : outcome B :=
  match m with
  | Returns a => k a
  | Raises e => Raises e
  end.

Notation "x <- m ;; k" := (bind m (fun x => k))
  (at level 61, m at next level, right associativity).

(** A [for] loop whose body appends rows to a list and may raise. *)
Fixpoint for_each {K R : Type} (body : K -> outcome (list R)) (keys : list K)
  : outcome (list R) :=
  match keys with
  | [] => Returns []
  | k :: keys' =>
      rows <- body k ;;
      rest <- for_each body keys' ;;
      Returns (rows ++ rest)%list
  end.

(* ================================================================== *)
(** * numpy on one-dimensional float64 arrays *)
(* ================================================================== *)

Module Np.

Definition array := list float.

Definition nan : float := (0 / 0)%float.

(** Element-wise combination of two arrays of one length. *)
Fixpoint map2 (f : float -> float -> float) (a b : array) : array :=
  match a, b with
  | x :: a', y :: b' => f x y :: map2 f a' b'
  | _, _ => []
  end.

(** [a - b] under numpy's broadcasting rule for one-dimensional operands:
    equal lengths pair up by position, a length-one operand is stretched,
    any other combination raises ValueError. *)
Definition sub (a b : array) : outcome array :=
  if Nat.eqb (length a) (length b) then Returns (map2 PrimFloat.sub a b)
  else match a, b with
       | [x], _ => Returns (map (fun y => PrimFloat.sub x y) b)
       | _, [y] => Returns (map (fun x => PrimFloat.sub x y) a)
       | _, _ => Raises ValueError
       end.

(** [a / b] on two columns of one frame (always of one length). *)
Definition div (a b : array) : array := map2 PrimFloat.div a b.

(** [a * k] with a scalar. *)
Definition scale (a : array) (k : float) : array :=
  map (fun x => PrimFloat.mul x k) a.

End Np.

(* ================================================================== *)
(** * The long-form table *)
(* ================================================================== *)

(** One entry of [records] (lines 79-85).  The key "Parameter" is spelt
    [Parameter_]: the plain word is reserved. *)
Record Measurement : Type := mkMeasurement {
  Parameter_ : string;
  Subject   : string;
  Group     : string;
  Condition : string;
  Value     : float
}.

Definition DataFrame := list Measurement.

(** [data[data["Condition"] == c]["Value"].values] *)
Definition values_of_condition (c : string) (data : DataFrame) : Np.array :=
  map Value (filter (fun r => String.eqb (Condition r) c) data).

(** [long_df[(long_df["Parameter"] == param) & (long_df["Group"] == group)]] *)
Definition select_cell (param group : string) (long_df : DataFrame) : DataFrame :=
  filter (fun r => String.eqb (Parameter_ r) param && String.eqb (Group r) group)
         long_df.

(** [Series.unique()]: distinct values in order of first appearance. *)
Fixpoint unique_aux (seen : list string) (l : list string) : list string :=
  match l with
  | [] => []
  | x :: l' =>
      if existsb (String.eqb x) seen then unique_aux seen l'
      else x :: unique_aux (x :: seen) l'
  end.

Definition unique (l : list string) : list string := unique_aux [] l.

(* ================================================================== *)
(** * The column parser (lines 48-65) *)
(* ================================================================== *)

(** [s.replace(ch, "")] for a one-character [ch]. *)
Fixpoint remove_char (ch : ascii) (s : string) : string :=
  match s with
  | EmptyString => EmptyString
  | String a s' =>
      if Ascii.eqb a ch then remove_char ch s' else String a (remove_char ch s')
  end.

(** [sub in s] *)
Fixpoint contains (sub s : string) : bool :=
  String.prefix sub s ||
  match s with
  | EmptyString => false
  | String _ s' => contains sub s'
  end.

(** [s.split(sep)[0]] for a one-character [sep]: the text before the first
    separator, the whole string when there is none. *)
Fixpoint split_head (sep : ascii) (s : string) : string :=
  match s with
  | EmptyString => EmptyString
  | String a s' =>
      if Ascii.eqb a sep then EmptyString else String a (split_head sep s')
  end.

(** Line 49: [col.replace(" ", "").replace("-", "")]. *)
Definition strip_noise (col : string) : string :=
  remove_char "-"%char (remove_char " "%char col).

(** Lines 50-55. *)
Definition group_of (c : string) : option string :=
  if String.prefix "PD" c then Some "PD"
  else if String.prefix "CO" c then Some "Control"
  else None.

(** Lines 57-62. *)
Definition condition_of (c : string) : option string :=
  if contains "NoStim" c then Some "No-Stim"
  else if contains "Stim" c then Some "Stim"
  else None.

Definition parse_column (col : string) : option (string * string * string) :=
  let c := strip_noise col in
  match group_of c with
  | None => None
  | Some group =>
      match condition_of c with
      | None => None
      | Some condition =>
          let subject := split_head "_"%char c in
          Some (subject, group, condition)
      end
  end.

(** Lines 71-85: one record per (row, parsable column); a row of the wide
    table is its parameter name and its cells, read by column position. *)
Fixpoint records_of_row (param : string) (cols : list string) (cells : list float)
  : DataFrame :=
  match cols, cells with
  | col :: cols', v :: cells' =>
      match parse_column col with
      | None => records_of_row param cols' cells'
      | Some (subject, group, condition) =>
          mkMeasurement param subject group condition v
            :: records_of_row param cols' cells'
      end
  | _, _ => []
  end.

Definition build_long_df (data_cols : list string)
           (rows : list (string * list float)) : DataFrame :=
  flat_map (fun row => records_of_row (fst row) data_cols (snd row)) rows.

(* ================================================================== *)
(** * Holm's step-down correction, as statsmodels computes it *)
(* ================================================================== *)

(** [multipletests(pvals, method="holm")[1]]: sort ascending, multiply the
    k-th smallest of n by n-k, take the running maximum, cap at one, and
    put every value back at the place its raw p-value came from.  The
    procedure is written once over the operations it needs from the number
    type; the script runs it on binary64 values ([float_ops]), and its
    order properties are proved for those. *)

Record pnum (P : Type) : Type := mkPnum {
  p_less    : P -> P -> bool;   (* the order argsort sorts by *)
  p_mul_nat : P -> nat -> P;    (* p * k for an integer k *)
  p_maximum : P -> P -> P;      (* np.maximum *)
  p_gt_one  : P -> bool;        (* p > 1 *)
  p_one     : P
}.

Arguments p_less {P} _ _ _.
Arguments p_mul_nat {P} _ _ _.
Arguments p_maximum {P} _ _ _.
Arguments p_gt_one {P} _ _.
Arguments p_one {P} _.

Section Holm.

Context {P : Type} (ops : pnum P).

(** [a[i]] for an index in range. *)
Definition item (a : list P) (i : nat) : P := nth i a (p_one ops).

(** [a[i] = v] in place. *)
Fixpoint set_item (i : nat) (v : P) (a : list P) : list P :=
  match a, i with
  | [], _ => []
  | _ :: a', O => v :: a'
  | x :: a', S i' => x :: set_item i' v a'
  end.

(** Insertion of index [i] into a list of indices ordered by their values;
    [i] is smaller than every index already there, and stays in front of
    the indices holding an equal value. *)
Fixpoint insert_index (pvals : list P) (i : nat) (sorted : list nat) : list nat :=
  match sorted with
  | [] => [i]
  | j :: rest =>
      if p_less ops (item pvals j) (item pvals i)
      then j :: insert_index pvals i rest
      else i :: j :: rest
  end.

(** [np.argsort(pvals)] *)
Definition argsort (pvals : list P) : list nat :=
  fold_right (insert_index pvals) [] (seq 0 (length pvals)).

(** [np.take(pvals, sortind)] *)
Definition take (pvals : list P) (sortind : list nat) : list P :=
  map (item pvals) sortind.

(** [pvals * np.arange(k, 0, -1)], for [k] the length of [pvals]. *)
Fixpoint mul_arange_down (pvals : list P) (k : nat) : list P :=
  match pvals with
  | [] => []
  | p :: rest => p_mul_nat ops p k :: mul_arange_down rest (Nat.pred k)
  end.

Fixpoint accumulate_from (m : P) (a : list P) : list P :=
  match a with
  | [] => []
  | x :: rest =>
      let m' := p_maximum ops m x in m' :: accumulate_from m' rest
  end.

(** [np.maximum.accumulate(a)] *)
Definition maximum_accumulate (a : list P) : list P :=
  match a with
  | [] => []
  | x :: rest => x :: accumulate_from x rest
  end.

(** [a[a > 1] = 1] *)
Definition cap_at_one (a : list P) : list P :=
  map (fun p => if p_gt_one ops p then p_one ops else p) a.

(** [out[sortind] = vals] *)
Fixpoint put (out : list P) (sortind : list nat) (vals : list P) : list P :=
  match sortind, vals with
  | i :: sortind', v :: vals' => put (set_item i v out) sortind' vals'
  | _, _ => out
  end.

(** [np.empty_like(a)]: a buffer of the length of [a]; its content is
    arbitrary and is overwritten slot by slot. *)
Definition empty_like (a : list P) : list P := repeat (p_one ops) (length a).

Definition holm (pvals : list P) : list P :=
  let sortind := argsort pvals in
  let pvals := take pvals sortind in
  let ntests := length pvals in
  let pvals_corrected_raw := mul_arange_down pvals ntests in
  let pvals_corrected := maximum_accumulate pvals_corrected_raw in
  let pvals_corrected := cap_at_one pvals_corrected in
  put (empty_like pvals_corrected) sortind pvals_corrected.

(** [multipletests(pvals, method="holm")]: before it corrects anything the
    routine computes [1./ntests], which Python refuses for an empty array. *)
Definition multipletests_holm (pvals : list P) : outcome (list P) :=
  match pvals with
  | [] => Raises ZeroDivisionError
  | _ :: _ => Returns (holm pvals)
  end.

(** The corrected values in step order, before [holm] puts them back: the
    capped running maximum of the scaled, sorted p-values. *)
Definition corrected_in_step_order (pvals : list P) : list P :=
  let sorted := take pvals (argsort pvals) in
  cap_at_one
    (maximum_accumulate (mul_arange_down sorted (length sorted))).

End Holm.

(** binary64, with numpy's conventions: NaN sorts last, np.maximum returns
    NaN when either argument is NaN, and a comparison with NaN is false. *)
Definition float_of_nat (k : nat) : float :=
  PrimFloat.of_uint63 (Uint63.of_Z (Z.of_nat k)).

Definition float_ops : pnum float :=
  {| p_less := fun a b => ((a <? b) || (is_nan b && negb (is_nan a)))%float;
     p_mul_nat := fun p k => (p * float_of_nat k)%float;
     p_maximum := fun a b => if ((b <=? a)%float || is_nan a) then a else b;
     p_gt_one := fun p => (1 <? p)%float;
     p_one := 1%float |}.

(** One cell of [cap_at_one] on binary64. *)
Definition cap_float (x : float) : float :=
  if p_gt_one float_ops x then p_one float_ops else x.

(** [x <= y] on binary64, as numpy evaluates it: false as soon as one of
    the two is NaN. *)
Definition fle (x y : float) : Prop := (x <=? y)%float = true.

(** A value that is a number. *)
Definition is_number (x : float) : Prop := is_nan x = false.

(** A p-value that is a number between 0 and 1; NaN is not one. *)
Definition is_probability (p : float) : Prop := fle 0 p /\ fle p 1.

(** NaN in the specification format of binary64. *)
Definition sf_is_nan (x : spec_float) : bool :=
  match x with S754_nan => true | _ => false end.

(* ================================================================== *)
(** * The paired test selector and the loops that call it *)
(* ================================================================== *)

Definition test_t : string := "Paired t-test".
Definition test_w : string := "Wilcoxon signed-rank".

(** The numerical cores of the library routines the script calls: what
    scipy, numpy and pandas compute once their argument checks have passed. *)
Class StatsLib : Type := mkStatsLib {
  shapiro_pvalue : Np.array -> float;                    (* stats.shapiro(x).pvalue *)
  ttest_rel_core : Np.array -> Np.array -> float * float; (* stats.ttest_rel(a, b) *)
  wilcoxon_core  : Np.array -> Np.array -> float * float; (* stats.wilcoxon(x, y) *)
  np_mean        : Np.array -> float;                    (* a.mean() *)
  np_std_ddof1   : Np.array -> float;                    (* a.std(ddof=1) *)
  group_mean     : Np.array -> float                     (* the mean of a pivot group *)
}.

Section Pipeline.

Context {lib : StatsLib}.

(** [stats.shapiro(x).pvalue]: scipy refuses fewer than three values. *)
Definition shapiro (x : Np.array) : outcome float :=
  if Nat.ltb (length x) 3 then Raises ValueError else Returns (shapiro_pvalue x).

(** [stats.ttest_rel(a, b)]: scipy broadcasts its two samples against each
    other before it pairs them, by numpy's rule (see [Np.sub]): arrays of
    one length are paired by position, an array of one element is stretched
    to the length of the other (which may be empty), and any other pair of
    lengths raises ValueError. *)
Definition ttest_rel (a b : Np.array) : outcome (float * float) :=
  if Nat.eqb (length a) (length b) then Returns (ttest_rel_core a b)
  else match a, b with
       | [x], _ => Returns (ttest_rel_core (repeat x (length b)) b)
       | _, [y] => Returns (ttest_rel_core a (repeat y (length a)))
       | _, _ => Raises ValueError
       end.

(** [stats.wilcoxon(x, y)]: scipy refuses arrays of unequal length. *)
Definition wilcoxon (x y : Np.array) : outcome (float * float) :=
  if Nat.eqb (length x) (length y) then Returns (wilcoxon_core x y)
  else Raises ValueError.

(** [diff.mean() / diff.std(ddof=1)] *)
Definition cohens_dz (diff : Np.array) : float :=
  (np_mean diff / np_std_ddof1 diff)%float.

(** What [paired_stats] returns when it does not return [None]:
    [(test, stat, p, dz)]. *)
Record TestTuple : Type := mkTestTuple {
  tt_test : string;
  tt_stat : float;
  tt_p    : float;
  tt_dz   : float
}.

(** Lines 96-114. *)
Definition paired_stats (data : DataFrame) : outcome (option TestTuple) :=
  let off := values_of_condition "No-Stim" data in
  let on  := values_of_condition "Stim" data in
  if Nat.ltb (length off) 3 || Nat.ltb (length on) 3 then Returns None
  else
    diff <- Np.sub on off ;;
    p_norm <- shapiro diff ;;
    res <- (if (0.05 <? p_norm)%float
            then sp <- ttest_rel on off ;; Returns (sp, test_t)
            else sp <- wilcoxon on off ;; Returns (sp, test_w)) ;;
    let '((stat, p), test) := res in
    let dz := cohens_dz diff in
    Returns (Some (mkTestTuple test stat p dz)).

(** The tuple lines 106-114 build from two arrays of one length: the test
    chosen by the normality p-value, its statistic and p-value, and dz. *)
Definition selected (on off : Np.array) : TestTuple :=
  let diff := Np.map2 PrimFloat.sub on off in
  if (0.05 <? shapiro_pvalue diff)%float
  then mkTestTuple test_t (fst (ttest_rel_core on off))
                   (snd (ttest_rel_core on off)) (cohens_dz diff)
  else mkTestTuple test_w (fst (wilcoxon_core on off))
                   (snd (wilcoxon_core on off)) (cohens_dz diff).

(* ---------------------------------------------------------------- *)
(** ** The statistics loop (lines 120-139) *)

(** One row of [results_df]; [p_holm] is NaN until line 156 fills it. *)
Record ResultRow : Type := mkResultRow {
  res_Parameter : string;
  res_Group     : string;
  res_Test      : string;
  res_Statistic : float;
  p_raw         : float;
  Cohens_dz     : float;
  p_holm        : float
}.

(** The body of the inner loop for one (param, group): the rows it
    appends to [results]. *)
Definition stats_cell (long_df : DataFrame) (param group : string)
  : outcome (list ResultRow) :=
  let subset := select_cell param group long_df in
  res <- paired_stats subset ;;
  match res with
  | None => Returns []
  | Some t =>
      Returns [mkResultRow param group (tt_test t) (tt_stat t) (tt_p t)
                           (tt_dz t) Np.nan]
  end.

Definition results (long_df : DataFrame) : outcome (list ResultRow) :=
  for_each (fun pg => stats_cell long_df (fst pg) (snd pg))
           (flat_map (fun param => [(param, "PD"); (param, "Control")])
                     (unique (map Parameter_ long_df))).

(* ---------------------------------------------------------------- *)
(** ** Holm correction within group (lines 150-156) *)

Definition with_p_holm (r : ResultRow) (p : float) : ResultRow :=
  mkResultRow (res_Parameter r) (res_Group r) (res_Test r)
              (res_Statistic r) (p_raw r) (Cohens_dz r) p.

(** [mask = results_df["Group"] == grp] *)
Definition in_group (grp : string) (r : ResultRow) : bool :=
  String.eqb (res_Group r) grp.

(** [results_df.loc[mask, "p_raw"].values] *)
Definition pvals_of (grp : string) (results_df : list ResultRow) : list float :=
  map p_raw (filter (in_group grp) results_df).

(** [results_df.loc[mask, "p_holm"] = p_corr]: the values go to the
    masked rows in order; pandas raises ValueError unless there is one
    value per masked row. *)
Fixpoint set_p_holm (grp : string) (p_corr : list float)
         (results_df : list ResultRow) : outcome (list ResultRow) :=
  match results_df with
  | [] => match p_corr with
          | [] => Returns []
          | _ :: _ => Raises ValueError
          end
  | r :: rest =>
      if in_group grp r then
        match p_corr with
        | [] => Raises ValueError
        | p :: ps =>
            rest' <- set_p_holm grp ps rest ;;
            Returns (with_p_holm r p :: rest')
        end
      else
        rest' <- set_p_holm grp p_corr rest ;;
        Returns (r :: rest')
  end.

(** The body of the loop for one [grp]. *)
Definition holm_group (grp : string) (results_df : list ResultRow)
  : outcome (list ResultRow) :=
  let pvals := pvals_of grp results_df in
  p_corr <- multipletests_holm float_ops pvals ;;
  set_p_holm grp p_corr results_df.

Fixpoint holm_groups (grps : list string) (results_df : list ResultRow)
  : outcome (list ResultRow) :=
  match grps with
  | [] => Returns results_df
  | grp :: grps' =>
      df <- holm_group grp results_df ;;
      holm_groups grps' df
  end.

Definition holm_correction (results_df : list ResultRow)
  : outcome (list ResultRow) :=
  holm_groups (unique (map res_Group results_df)) results_df.

(* ---------------------------------------------------------------- *)
(** ** Locomotion control (lines 213-231) *)

Definition LOCOMOTION_PARAMS : list string :=
  ["MeanSpeed_Overall_cm/s"; "Entries_ClosedArms"].

(** One entry of [locomotion_results]: [[param, stat, p, dz]]. *)
Record LocomotionRow : Type := mkLocomotionRow {
  loc_Parameter : string;
  loc_Statistic : float;
  loc_p_value   : float;
  loc_Cohens_dz : float
}.

(** The loop body for one [param]. *)
Definition locomotion_cell (long_df : DataFrame) (param : string)
  : outcome (list LocomotionRow) :=
  let subset := select_cell param "PD" long_df in
  match subset with
  | [] => Returns []
  | _ :: _ =>
      let off := values_of_condition "No-Stim" subset in
      let on  := values_of_condition "Stim" subset in
      sp <- ttest_rel on off ;;
      let '(stat, p) := sp in
      d1 <- Np.sub on off ;;
      d2 <- Np.sub on off ;;
      let dz := (np_mean d1 / np_std_ddof1 d2)%float in
      Returns [mkLocomotionRow param stat p dz]
  end.

Definition locomotion_results (long_df : DataFrame)
  : outcome (list LocomotionRow) :=
  for_each (locomotion_cell long_df) LOCOMOTION_PARAMS.

End Pipeline.

(* ================================================================== *)
(** * The within-subject table (lines 309-334) *)
(* ================================================================== *)

Definition PRIMARY_EPM_PARAMS : list string :=
  ["Time_OpenArms"; "Percent_OpenArms"].

(** Ascending order of an index of strings (insertion sort). *)
Fixpoint insert_sorted (x : string) (l : list string) : list string :=
  match l with
  | [] => [x]
  | y :: l' => if String.leb x y then x :: y :: l' else y :: insert_sorted x l'
  end.

Definition sort_strings (l : list string) : list string :=
  fold_right insert_sorted [] l.

Definition is_some {A : Type} (o : option A) : bool :=
  match o with Some _ => true | None => false end.

(** The frame [pivot_table] returns: its index (one label per row) and its
    columns (a name and one cell per row). *)
Record Wide : Type := mkWide {
  w_index   : list string;
  w_columns : list (string * Np.array)
}.

(** [wide[name]]: the column, or KeyError. *)
Definition getcol (name : string) (wide : Wide) : outcome Np.array :=
  match find (fun kv => String.eqb (fst kv) name) (w_columns wide) with
  | Some kv => Returns (snd kv)
  | None => Raises KeyError
  end.

(** The frame appended to [within_subject_tables]. *)
Record WithinTable : Type := mkWithinTable {
  wt_wide                    : Wide;
  wt_Delta_Stim_minus_NoStim : Np.array;
  wt_Percent_Change          : Np.array;
  wt_Parameter               : string
}.

Section WithinSubject.

Context {lib : StatsLib}.

(** The aggregated value of one group: absent when the group has no row,
    and dropped when its mean is NaN ([dropna=True]). *)
Definition agged (temp : DataFrame) (subject condition : string) : option float :=
  match map Value (filter (fun r => String.eqb (Subject r) subject
                                    && String.eqb (Condition r) condition) temp) with
  | [] => None
  | vs => let m := group_mean vs in
          if is_nan m then None else Some m
  end.

(** [temp.pivot_table(index="Subject", columns="Condition", values="Value")]:
    one row per subject and one column per condition that keep a value,
    both in ascending order; a (subject, condition) pair without a value
    is NaN. *)
Definition pivot_table (temp : DataFrame) : Wide :=
  let subjects := unique (map Subject temp) in
  let conditions := unique (map Condition temp) in
  let index :=
    sort_strings
      (filter (fun s => existsb (fun c => is_some (agged temp s c)) conditions)
              subjects) in
  let columns :=
    sort_strings
      (filter (fun c => existsb (fun s => is_some (agged temp s c)) subjects)
              conditions) in
  mkWide index
         (map (fun c =>
                 (c, map (fun s => match agged temp s c with
                                   | Some v => v
                                   | None => Np.nan
                                   end) index))
              columns).

(** The loop body for one [param] (lines 312-332). *)
Definition within_subject_cell (long_df : DataFrame) (param : string)
  : outcome (list WithinTable) :=
  let temp := select_cell param "PD" long_df in
  match temp with
  | [] => Returns []
  | _ :: _ =>
      let wide := pivot_table temp in
      stim <- getcol "Stim" wide ;;
      no_stim <- getcol "No-Stim" wide ;;
      let delta := Np.map2 PrimFloat.sub stim no_stim in
      no_stim' <- getcol "No-Stim" wide ;;
      let percent := Np.scale (Np.div delta no_stim') 100%float in
      Returns [mkWithinTable wide delta percent param]
  end.

Definition within_subject_tables (long_df : DataFrame)
  : outcome (list WithinTable) :=
  for_each (within_subject_cell long_df) PRIMARY_EPM_PARAMS.

(** Line 334: [pd.concat] raises ValueError on an empty list. *)
Definition within_subject_df (long_df : DataFrame) : outcome (list WithinTable) :=
  tables <- within_subject_tables long_df ;;
  match tables with
  | [] => Raises ValueError
  | _ :: _ => Returns tables
  end.

End WithinSubject.

(* ================================================================== *)
(** * The rest of the script's tables *)
(* ================================================================== *)

(** Lines 87-90: the script stops with RuntimeError when no record was
    parsed. *)
Inductive load_result : Type :=
| Loaded (long_df : DataFrame)
| RuntimeError (msg : string).

Definition checked_long_df (data_cols : list string)
           (rows : list (string * list float)) : load_result :=
  match build_long_df data_cols rows with
  | [] => RuntimeError "No data parsed. Check column names in EPM.xlsx"
  | r :: rest => Loaded (r :: rest)
  end.

(** A cell [paired_stats] cannot subtract: both arrays pass the guard of
    line 100 and their lengths differ. *)
Definition unbalanced (data : DataFrame) : Prop :=
  3 <= length (values_of_condition "No-Stim" data)
  /\ 3 <= length (values_of_condition "Stim" data)
  /\ length (values_of_condition "No-Stim" data)
     <> length (values_of_condition "Stim" data).

(** The (param, group) pairs the statistics loop visits, in order. *)
Definition cells_of (long_df : DataFrame) : list (string * string) :=
  flat_map (fun param => [(param, "PD"); (param, "Control")])
           (unique (map Parameter_ long_df)).

(** Lines 162-170: the rows written to the tables S1 and S2. *)
Definition table_S1 (results_df : list ResultRow) : list ResultRow :=
  filter (in_group "PD") results_df.

Definition table_S2 (results_df : list ResultRow) : list ResultRow :=
  filter (in_group "Control") results_df.

(** A row with its [p_holm] set aside: what the Holm loop must not touch. *)
Definition without_p_holm (r : ResultRow)
  : string * string * string * float * float * float :=
  (res_Parameter r, res_Group r, res_Test r, res_Statistic r, p_raw r,
   Cohens_dz r).

(** The frame appended to [subject_tables] (lines 192-200). *)
Record SubjectTable : Type := mkSubjectTable {
  st_wide                    : Wide;
  st_Delta_Stim_minus_NoStim : Np.array;
  st_Parameter               : string
}.

(** The within-subject table without its percent column. *)
Definition as_subject_table (t : WithinTable) : SubjectTable :=
  mkSubjectTable (wt_wide t) (wt_Delta_Stim_minus_NoStim t) (wt_Parameter t).

Section SubjectLevel.

Context {lib : StatsLib}.

(** Lines 120-156 in sequence: the tests, then the Holm loop. *)
Definition results_df (long_df : DataFrame) : outcome (list ResultRow) :=
  rows <- results long_df ;;
  holm_correction rows.

(** The loop body for one [param] (lines 185-200). *)
Definition subject_level_cell (long_df : DataFrame) (param : string)
  : outcome (list SubjectTable) :=
  let temp := select_cell param "PD" long_df in
  match temp with
  | [] => Returns []
  | _ :: _ =>
      let wide := pivot_table temp in
      stim <- getcol "Stim" wide ;;
      no_stim <- getcol "No-Stim" wide ;;
      let delta := Np.map2 PrimFloat.sub stim no_stim in
      Returns [mkSubjectTable wide delta param]
  end.

Definition subject_tables (long_df : DataFrame) : outcome (list SubjectTable) :=
  for_each (subject_level_cell long_df) PRIMARY_EPM_PARAMS.

(** Lines 202-207: the tables are concatenated and saved only when there
    is one; [None] stands for nothing saved. *)
Definition subject_level_df (long_df : DataFrame)
  : outcome (option (list SubjectTable)) :=
  tables <- subject_tables long_df ;;
  match tables with
  | [] => Returns None
  | _ :: _ => Returns (Some tables)
  end.

(** The row the locomotion loop appends for a [param] whose PD subset is
    not empty and has arms of one length. *)
Definition locomotion_row (long_df : DataFrame) (param : string) : LocomotionRow :=
  let subset := select_cell param "PD" long_df in
  let off := values_of_condition "No-Stim" subset in
  let on  := values_of_condition "Stim" subset in
  mkLocomotionRow param (fst (ttest_rel_core on off)) (snd (ttest_rel_core on off))
                  (cohens_dz (Np.map2 PrimFloat.sub on off)).

End SubjectLevel.

(* ================================================================== *)
(** * A concrete library and concrete tables, for evaluation *)
(* ================================================================== *)

(** Left-to-right reductions for the mean and the sample standard
    deviation.  The tests' statistics are fixed pairs and the normality
    p-value is a parameter: enough to run the script's own logic on a
    table and to choose the branch it takes. *)
Definition seq_sum (a : Np.array) : float :=
  fold_left PrimFloat.add a 0%float.

Definition seq_mean (a : Np.array) : float :=
  (seq_sum a / float_of_nat (length a))%float.

Definition seq_std_ddof1 (a : Np.array) : float :=
  let m := seq_mean a in
  PrimFloat.sqrt
    (seq_sum (map (fun x => ((x - m) * (x - m))%float) a)
     / float_of_nat (length a - 1))%float.

Definition stand_in (p_norm : float) : StatsLib :=
  {| shapiro_pvalue := fun _ => p_norm;
     ttest_rel_core := fun _ _ => (2.5, 0.03125)%float;
     wilcoxon_core  := fun _ _ => (0, 0.0625)%float;
     np_mean        := seq_mean;
     np_std_ddof1   := seq_std_ddof1;
     group_mean     := seq_mean |}.

(** A library with another normality diagnostic and another Wilcoxon
    routine: the two parts only the adaptive selector calls. *)
Definition with_adaptive_parts (sh : Np.array -> float)
           (w : Np.array -> Np.array -> float * float) (lib : StatsLib) : StatsLib :=
  {| shapiro_pvalue := sh;
     wilcoxon_core  := w;
     ttest_rel_core := @ttest_rel_core lib;
     np_mean        := @np_mean lib;
     np_std_ddof1   := @np_std_ddof1 lib;
     group_mean     := @group_mean lib |}.

(** The records of one (parameter, group) cell, given the values of the
    two conditions subject by subject. *)
Fixpoint cell_records (param group : string) (k : nat)
         (pairs : list (float * float)) : DataFrame :=
  match pairs with
  | [] => []
  | (off, on) :: rest =>
      mkMeasurement param (String (ascii_of_nat (65 + k)) EmptyString) group "No-Stim" off
        :: mkMeasurement param (String (ascii_of_nat (65 + k)) EmptyString) group "Stim" on
        :: cell_records param group (S k) rest
  end.

(** Five subjects: baseline 1..5, intervention 2, 3, 4, 5, 7. *)
Definition sample_five : DataFrame :=
  cell_records "Time_OpenArms" "PD" 0
    [(1, 2); (2, 3); (3, 4); (4, 5); (5, 7)]%float.

(** Three subjects whose differences are all equal to one. *)
Definition sample_constant_diff : DataFrame :=
  cell_records "Time_OpenArms" "PD" 0 [(1, 2); (2, 3); (3, 4)]%float.

(** Two subjects only. *)
Definition sample_two : DataFrame :=
  cell_records "Entries_ClosedArms" "PD" 0 [(4, 6); (5, 5)]%float.

(** Four baseline values against three intervention values. *)
Definition sample_unequal : DataFrame :=
  (sample_constant_diff
     ++ [mkMeasurement "Time_OpenArms" "D" "PD" "No-Stim" 9%float])%list.

(** Three subjects whose rows come in one order for No-Stim (A, B, C) and
    in another for Stim (C, A, B). *)
Definition sample_shuffled : DataFrame :=
  [ mkMeasurement "Time_OpenArms" "A" "PD" "No-Stim" 1;
    mkMeasurement "Time_OpenArms" "B" "PD" "No-Stim" 2;
    mkMeasurement "Time_OpenArms" "C" "PD" "No-Stim" 3;
    mkMeasurement "Time_OpenArms" "C" "PD" "Stim" 30;
    mkMeasurement "Time_OpenArms" "A" "PD" "Stim" 10;
    mkMeasurement "Time_OpenArms" "B" "PD" "Stim" 20 ]%float.

(** A wide table whose columns use the underscore style. *)
Definition sample_underscore_columns : list string :=
  ["PD_1_NoStim"; "PD_1_Stim"; "PD_2_NoStim"; "PD_2_Stim"; "XYZ_99"].

(** PD records of a primary parameter, all of them baseline values. *)
Definition sample_baseline_only : DataFrame :=
  [ mkMeasurement "Time_OpenArms" "PD1" "PD" "No-Stim" 1;
    mkMeasurement "Time_OpenArms" "PD2" "PD" "No-Stim" 2 ]%float.

(** A locomotion parameter with one baseline value and two intervention
    values in the PD group: the single baseline value is broadcast. *)
Definition sample_locomotion_unequal : DataFrame :=
  [ mkMeasurement "Entries_ClosedArms" "PD1" "PD" "No-Stim" 4;
    mkMeasurement "Entries_ClosedArms" "PD1" "PD" "Stim" 6;
    mkMeasurement "Entries_ClosedArms" "PD2" "PD" "Stim" 5 ]%float.

(** A locomotion parameter with two baseline values and three intervention
    values in the PD group: no broadcasting can pair them. *)
Definition sample_locomotion_two_three : DataFrame :=
  [ mkMeasurement "Entries_ClosedArms" "PD1" "PD" "No-Stim" 4;
    mkMeasurement "Entries_ClosedArms" "PD1" "PD" "Stim" 6;
    mkMeasurement "Entries_ClosedArms" "PD2" "PD" "No-Stim" 3;
    mkMeasurement "Entries_ClosedArms" "PD2" "PD" "Stim" 5;
    mkMeasurement "Entries_ClosedArms" "PD3" "PD" "Stim" 7 ]%float.

(** A subject whose baseline is zero. *)
Definition sample_zero_baseline : DataFrame :=
  cell_records "Time_OpenArms" "PD" 0 [(0, 2); (4, 5); (0, 0)]%float.

(** A results table with three PD rows and two Control rows, and the same
    table with the Control rows swapped, one of them changed, and one more
    Control row added. *)
Definition result_row (param group : string) (p : float) : ResultRow :=
  mkResultRow param group test_t 2.5%float p 1%float Np.nan.

Definition sample_results : list ResultRow :=
  [ result_row "Time_OpenArms" "PD" 0.03;
    result_row "Time_OpenArms" "Control" 0.5;
    result_row "Percent_OpenArms" "PD" 0.01;
    result_row "Percent_OpenArms" "Control" 0.25;
    result_row "Time_Center" "PD" 0.4 ]%float.


Definition sample_results_other_control : list ResultRow :=
  [ result_row "Percent_OpenArms" "Control" 0.25;
    result_row "Time_OpenArms" "PD" 0.03;
    result_row "Percent_OpenArms" "PD" 0.01;
    result_row "Time_OpenArms" "Control" 0.001;
    result_row "Entries_OpenArms" "Control" 0.002;
    result_row "Time_Center" "PD" 0.4 ]%float.

(* ================================================================== *)
(** * Facts about binary64 arithmetic *)
(* ================================================================== *)

Module FloatFacts.

Local Open Scope float_scope.

(** A value whose specification is NaN or an infinity is not finite. *)
Lemma nonfinite_of_spec (z : float) :
  match Prim2SF z with
  | S754_nan | S754_infinity _ => True
  | _ => False
  end ->
  is_finite z = false.
Proof.
  intros H. unfold is_finite, is_nan, is_infinity.
  rewrite !FloatAxioms.eqb_spec, FloatAxioms.abs_spec.
  destruct (Prim2SF z) as [s | s | | s m e]; try contradiction.
  - destruct s; reflexivity.
  - reflexivity.
Qed.

(** A value that compares equal to zero is one of the two zeros. *)
Lemma zero_of_eqb (b : float) :
  (b =? 0) = true -> exists s, Prim2SF b = S754_zero s.
Proof.
  rewrite FloatAxioms.eqb_spec.
  change (Prim2SF 0) with (S754_zero false).
  destruct (Prim2SF b) as [s | s | | s m e]; cbn.
  - intros _. now exists s.
  - destruct s; discriminate.
  - discriminate.
  - destruct s; discriminate.
Qed.

(** Division by zero gives NaN or an infinity, whatever the numerator. *)
Lemma div_zero_spec (x b : float) :
  (b =? 0) = true ->
  match Prim2SF (x / b) with
  | S754_nan | S754_infinity _ => True
  | _ => False
  end.
Proof.
  intros Hb. destruct (zero_of_eqb b Hb) as [s Hs].
  rewrite FloatAxioms.div_spec, Hs. unfold SF64div, SFdiv.
  destruct (Prim2SF x); exact I.
Qed.

Lemma div_zero_not_finite (x b : float) :
  (b =? 0) = true -> is_finite (x / b) = false.
Proof. intros Hb. apply nonfinite_of_spec, div_zero_spec, Hb. Qed.

(** Scaling by one hundred keeps NaN and the infinities what they are. *)
Lemma times_100_spec (x : float) :
  match Prim2SF x with
  | S754_nan | S754_infinity _ => True
  | _ => False
  end ->
  match Prim2SF (x * 100) with
  | S754_nan | S754_infinity _ => True
  | _ => False
  end.
Proof.
  rewrite FloatAxioms.mul_spec.
  change (Prim2SF 100) with (S754_finite false 7036874417766400 (-46)).
  destruct (Prim2SF x); intros H; try contradiction; exact I.
Qed.

Lemma percent_of_zero_base_not_finite (d b : float) :
  (b =? 0) = true -> is_finite (d / b * 100) = false.
Proof.
  intros Hb. apply nonfinite_of_spec, times_100_spec, div_zero_spec, Hb.
Qed.

End FloatFacts.

(* ================================================================== *)
(** * The paired test selector *)
(* ================================================================== *)

Lemma map2_length (f : float -> float -> float) (a b : Np.array) :
  length a = length b -> length (Np.map2 f a b) = length a.
Proof.
  revert b. induction a as [| x a IH]; intros [| y b] H; simpl in *;
    try discriminate; auto.
Qed.

Lemma map2_nth (f : float -> float -> float) (a b : Np.array) (i : nat) (d : float) :
  length a = length b -> i < length a ->
  nth i (Np.map2 f a b) d = f (nth i a d) (nth i b d).
Proof.
  revert b i. induction a as [| x a IH]; intros [| y b] i H Hi; simpl in *;
    try discriminate; try lia.
  destruct i as [| i]; [reflexivity |]. apply IH; lia.
Qed.

Lemma np_sub_equal_length (a b : Np.array) :
  length a = length b -> Np.sub a b = Returns (Np.map2 PrimFloat.sub a b).
Proof.
  intros H. unfold Np.sub. now rewrite H, Nat.eqb_refl.
Qed.

Lemma np_sub_unequal_raises (a b : Np.array) :
  3 <= length a -> 3 <= length b -> length a <> length b ->
  Np.sub a b = Raises ValueError.
Proof.
  intros Ha Hb Hne. unfold Np.sub.
  apply Nat.eqb_neq in Hne. rewrite Hne.
  destruct a as [| x [| x' a]]; simpl in Ha; try lia.
  destruct b as [| y [| y' b]]; simpl in Hb; try lia.
  reflexivity.
Qed.

Lemma test_names_differ : test_t <> test_w.
Proof. discriminate. Qed.

Section SelectorFacts.

Context {lib : StatsLib}.

Lemma paired_stats_tested (data : DataFrame) :
  let off := values_of_condition "No-Stim" data in
  let on := values_of_condition "Stim" data in
  length off = length on -> 3 <= length off ->
  paired_stats data = Returns (Some (selected on off)).
Proof.
  intros off on Hlen H3. unfold paired_stats. fold off on.
  assert (Hoff : Nat.ltb (length off) 3 = false) by (apply Nat.ltb_ge; lia).
  assert (Hon : Nat.ltb (length on) 3 = false) by (apply Nat.ltb_ge; lia).
  rewrite Hoff, Hon. cbn [orb].
  rewrite np_sub_equal_length by auto. cbn [bind].
  unfold shapiro. rewrite map2_length by auto.
  rewrite Hon. cbn [bind].
  unfold selected, ttest_rel, wilcoxon. rewrite <- Hlen, Nat.eqb_refl.
  destruct (0.05 <? _)%float; cbn [bind];
    [destruct (ttest_rel_core on off) | destruct (wilcoxon_core on off)];
    reflexivity.
Qed.

Lemma guard_skips_small_cell (data : DataFrame) :
  length (values_of_condition "No-Stim" data) < 3
  \/ length (values_of_condition "Stim" data) < 3 ->
  paired_stats data = Returns None.
Proof.
  intros H. unfold paired_stats.
  destruct H as [H | H]; apply Nat.ltb_lt in H; rewrite H.
  - reflexivity.
  - now rewrite orb_true_r.
Qed.

(** C1.  A cell whose two arrays have one length, at least three, gets
    exactly one test tuple from [paired_stats]: the paired t-test when the
    Shapiro-Wilk p-value of the differences is strictly above 0.05, the
    Wilcoxon signed-rank test otherwise (a NaN p-value included), with the
    statistic and p-value of the test that was chosen.  The two names differ,
    so the tuple never carries both. *)
Theorem paired_stats_selects_by_normality (data : DataFrame) :
  let off := values_of_condition "No-Stim" data in
  let on := values_of_condition "Stim" data in
  let diff := Np.map2 PrimFloat.sub on off in
  length off = length on -> 3 <= length off ->
  exists t : TestTuple,
    paired_stats data = Returns (Some t)
    /\ (tt_test t = test_t <-> (0.05 <? shapiro_pvalue diff)%float = true)
    /\ (tt_test t = test_w <-> (0.05 <? shapiro_pvalue diff)%float = false)
    /\ ((tt_test t = test_t /\ (tt_stat t, tt_p t) = ttest_rel_core on off)
        \/ (tt_test t = test_w /\ (tt_stat t, tt_p t) = wilcoxon_core on off)).
Proof.
  intros off on diff Hlen H3.
  exists (selected on off). split.
  - apply paired_stats_tested; assumption.
  - unfold selected. fold diff.
    destruct (0.05 <? shapiro_pvalue diff)%float; cbn [tt_test tt_stat tt_p].
    + repeat split; try reflexivity; try discriminate.
      left. split; [reflexivity | now destruct (ttest_rel_core on off)].
    + repeat split; try reflexivity; try discriminate.
      right. split; [reflexivity | now destruct (wilcoxon_core on off)].
Qed.

(** C2.  When either array has fewer than three values, [paired_stats]
    returns [None]: it neither raises nor builds a tuple.  The result is a
    function of the table alone, so every call on it gives the same [None]. *)
Theorem paired_stats_small_sample_no_result (data : DataFrame) :
  length (values_of_condition "No-Stim" data) < 3
  \/ length (values_of_condition "Stim" data) < 3 ->
  paired_stats data = Returns None.
Proof.
  intros H. unfold paired_stats.
  set (off := values_of_condition "No-Stim" data) in *.
  set (on := values_of_condition "Stim" data) in *.
  destruct H as [H | H].
  - assert (E : Nat.ltb (length off) 3 = true) by (apply Nat.ltb_lt; exact H).
    rewrite E. reflexivity.
  - assert (E : Nat.ltb (length on) 3 = true) by (apply Nat.ltb_lt; exact H).
    rewrite E. destruct (Nat.ltb (length off) 3); reflexivity.
Qed.

(** C9.  [paired_stats] reads nothing but the two value sequences, in the
    order of the rows: two tables with the same sequences get the same
    result whatever their subjects are.  It has no check of equal length:
    with both arrays of length three or more and of different lengths, the
    subtraction of line 103 raises ValueError, and [None] is not returned. *)
Theorem paired_stats_positional_unequal_raises :
  (forall data data' : DataFrame,
      values_of_condition "No-Stim" data = values_of_condition "No-Stim" data' ->
      values_of_condition "Stim" data = values_of_condition "Stim" data' ->
      paired_stats data = paired_stats data')
  /\ (forall data : DataFrame,
         3 <= length (values_of_condition "No-Stim" data) ->
         3 <= length (values_of_condition "Stim" data) ->
         length (values_of_condition "No-Stim" data)
           <> length (values_of_condition "Stim" data) ->
         paired_stats data = Raises ValueError
         /\ paired_stats data <> Returns None).
Proof.
  split.
  - intros data data' Hoff Hon. unfold paired_stats. now rewrite Hoff, Hon.
  - intros data Hoff Hon Hne.
    assert (E : paired_stats data = Raises ValueError).
    { unfold paired_stats.
      assert (H1 : Nat.ltb (length (values_of_condition "No-Stim" data)) 3 = false)
        by (apply Nat.ltb_ge; lia).
      assert (H2 : Nat.ltb (length (values_of_condition "Stim" data)) 3 = false)
        by (apply Nat.ltb_ge; lia).
      rewrite H1, H2. cbn [orb].
      rewrite np_sub_unequal_raises by (auto; congruence). reflexivity. }
    split; [exact E | rewrite E; discriminate].
Qed.

(** C5.  For a tested cell the effect size is [mean(diff) / std(diff, ddof=1)]
    with [diff[i] = on[i] - off[i]].  When that standard deviation is zero
    the quotient is NaN or an infinity; [paired_stats] still returns its
    tuple, and the statistics loop still appends the row. *)
Theorem cohens_dz_of_tested_cell (data : DataFrame) :
  let off := values_of_condition "No-Stim" data in
  let on := values_of_condition "Stim" data in
  let diff := Np.map2 PrimFloat.sub on off in
  length off = length on -> 3 <= length off ->
  exists t : TestTuple,
    paired_stats data = Returns (Some t)
    /\ length diff = length on
    /\ (forall i, i < length diff ->
                  nth i diff 0%float = (nth i on 0 - nth i off 0)%float)
    /\ tt_dz t = (np_mean diff / np_std_ddof1 diff)%float
    /\ ((np_std_ddof1 diff =? 0)%float = true -> is_finite (tt_dz t) = false)
    /\ (forall (long_df : DataFrame) (param group : string),
           select_cell param group long_df = data ->
           exists row : ResultRow,
             stats_cell long_df param group = Returns [row]
             /\ Cohens_dz row = tt_dz t).
Proof.
  intros off on diff Hlen H3.
  assert (Hps : paired_stats data = Returns (Some (selected on off)))
    by (apply paired_stats_tested; assumption).
  assert (Hdz : tt_dz (selected on off) = (np_mean diff / np_std_ddof1 diff)%float).
  { unfold selected. fold diff. now destruct (0.05 <? shapiro_pvalue diff)%float. }
  exists (selected on off). repeat split.
  - exact Hps.
  - apply map2_length. auto.
  - intros i Hi. unfold diff in *. rewrite map2_length in Hi by auto.
    apply map2_nth; auto.
  - exact Hdz.
  - intros Hz. rewrite Hdz. now apply FloatFacts.div_zero_not_finite.
  - intros long_df param group Hsel.
    eexists. unfold stats_cell. rewrite Hsel, Hps. cbn [bind].
    split; reflexivity.
Qed.

End SelectorFacts.

Lemma paired_stats_selects_by_normality_witness :
  length (values_of_condition "No-Stim" sample_five)
    = length (values_of_condition "Stim" sample_five)
  /\ 3 <= length (values_of_condition "No-Stim" sample_five)
  /\ exists t : TestTuple,
       @paired_stats (stand_in 0.5) sample_five = Returns (Some t)
       /\ tt_test t = test_t.
Proof.
  split; [reflexivity |]. split; [vm_compute; lia |].
  destruct (@paired_stats_selects_by_normality (stand_in 0.5) sample_five
              eq_refl ltac:(vm_compute; lia)) as (t & Ht & Hiff & _).
  exists t. split; [exact Ht |]. apply Hiff. reflexivity.
Defined.

Lemma paired_stats_small_sample_no_result_witness :
  length (values_of_condition "No-Stim" sample_two) < 3
  /\ @paired_stats (stand_in 0.5) sample_two = Returns None.
Proof.
  split; [vm_compute; lia |].
  apply (@paired_stats_small_sample_no_result (stand_in 0.5) sample_two).
  left. vm_compute. lia.
Defined.

Lemma paired_stats_positional_unequal_raises_witness :
  3 <= length (values_of_condition "No-Stim" sample_unequal)
  /\ 3 <= length (values_of_condition "Stim" sample_unequal)
  /\ length (values_of_condition "No-Stim" sample_unequal)
       <> length (values_of_condition "Stim" sample_unequal)
  /\ @paired_stats (stand_in 0.5) sample_unequal = Raises ValueError.
Proof.
  split; [vm_compute; lia |]. split; [vm_compute; lia |].
  split; [vm_compute; lia |].
  apply (proj2 (@paired_stats_positional_unequal_raises (stand_in 0.5))
               sample_unequal);
    vm_compute; lia.
Defined.

Lemma cohens_dz_of_tested_cell_witness :
  (@np_std_ddof1 (stand_in 0.5)
     (Np.map2 PrimFloat.sub (values_of_condition "Stim" sample_constant_diff)
              (values_of_condition "No-Stim" sample_constant_diff)) =? 0)%float = true
  /\ exists t : TestTuple,
       @paired_stats (stand_in 0.5) sample_constant_diff = Returns (Some t)
       /\ is_finite (tt_dz t) = false.
Proof.
  split; [vm_compute; reflexivity |].
  destruct (@cohens_dz_of_tested_cell (stand_in 0.5) sample_constant_diff
              eq_refl ltac:(vm_compute; lia)) as (t & Ht & _ & _ & _ & Hz & _).
  exists t. split; [exact Ht |]. apply Hz. vm_compute. reflexivity.
Defined.

(* ================================================================== *)
(** * The locomotion-control path *)
(* ================================================================== *)

Section LocomotionFacts.

Context {lib : StatsLib}.

Lemma locomotion_cell_paired (long_df : DataFrame) (param : string) :
  let subset := select_cell param "PD" long_df in
  let off := values_of_condition "No-Stim" subset in
  let on := values_of_condition "Stim" subset in
  subset <> [] -> length off = length on ->
  locomotion_cell long_df param
  = Returns [mkLocomotionRow param (fst (ttest_rel_core on off))
                             (snd (ttest_rel_core on off))
                             (cohens_dz (Np.map2 PrimFloat.sub on off))].
Proof.
  intros subset off on Hne Hlen. unfold locomotion_cell. fold subset.
  destruct subset as [| r rest] eqn:E; [congruence |].
  fold off on. unfold ttest_rel. rewrite <- Hlen, Nat.eqb_refl. cbn [bind].
  destruct (ttest_rel_core on off) as [stat p].
  rewrite np_sub_equal_length by auto. reflexivity.
Qed.

(** C4.  On the locomotion path the normality diagnostic and the Wilcoxon
    routine are never consulted: replacing both by any others leaves the
    outcome of the loop body, and of the whole loop, unchanged.  For a
    non-empty PD subset with
    paired arms the row carries the statistic and p-value of the paired
    t-test, also when the normality p-value of the differences is not above
    0.05, where [paired_stats] on the same subset picks Wilcoxon. *)
Theorem locomotion_always_paired_t_test (long_df : DataFrame) (param : string) :
  let subset := select_cell param "PD" long_df in
  let off := values_of_condition "No-Stim" subset in
  let on := values_of_condition "Stim" subset in
  let diff := Np.map2 PrimFloat.sub on off in
  (forall sh w,
      @locomotion_cell (with_adaptive_parts sh w lib) long_df param
      = locomotion_cell long_df param
      /\ @locomotion_results (with_adaptive_parts sh w lib) long_df
         = locomotion_results long_df)
  /\ (subset <> [] -> length off = length on ->
      locomotion_cell long_df param
      = Returns [mkLocomotionRow param (fst (ttest_rel_core on off))
                                 (snd (ttest_rel_core on off)) (cohens_dz diff)]
      /\ (3 <= length off -> (0.05 <? shapiro_pvalue diff)%float = false ->
          exists t : TestTuple,
            paired_stats subset = Returns (Some t) /\ tt_test t = test_w)).
Proof.
  intros subset off on diff. split.
  - intros sh w. split; reflexivity.
  - intros Hne Hlen. split.
    + apply locomotion_cell_paired; assumption.
    + intros H3 Hsh. exists (selected on off). split.
      * apply paired_stats_tested; assumption.
      * unfold selected. fold diff. now rewrite Hsh.
Qed.

(** C10.  The locomotion path has no guard on the sample size: for a
    non-empty PD subset with fewer than three paired values the paired
    t-test and Cohen's dz are still computed and the row is appended, while
    [paired_stats] returns [None] on the same subset and the statistics loop
    appends nothing for it. *)
Theorem locomotion_no_minimum_sample_size (long_df : DataFrame) (param : string) :
  let subset := select_cell param "PD" long_df in
  let off := values_of_condition "No-Stim" subset in
  let on := values_of_condition "Stim" subset in
  subset <> [] -> length off = length on -> length off < 3 ->
  locomotion_cell long_df param
  = Returns [mkLocomotionRow param (fst (ttest_rel_core on off))
                             (snd (ttest_rel_core on off))
                             (np_mean (Np.map2 PrimFloat.sub on off)
                              / np_std_ddof1 (Np.map2 PrimFloat.sub on off))%float]
  /\ paired_stats subset = Returns None
  /\ stats_cell long_df param "PD" = Returns [].
Proof.
  intros subset off on Hne Hlen Hsmall.
  assert (Hnone : paired_stats subset = Returns None).
  { apply guard_skips_small_cell. left. exact Hsmall. }
  split; [| split].
  - apply locomotion_cell_paired; assumption.
  - exact Hnone.
  - unfold stats_cell. fold subset. now rewrite Hnone.
Qed.

End LocomotionFacts.

Lemma locomotion_always_paired_t_test_witness :
  let subset := select_cell "Entries_ClosedArms" "PD" sample_two in
  subset <> []
  /\ length (values_of_condition "No-Stim" subset)
     = length (values_of_condition "Stim" subset)
  /\ @locomotion_cell (stand_in 0.01) sample_two "Entries_ClosedArms"
     = Returns [mkLocomotionRow "Entries_ClosedArms" 2.5 0.03125
                                0.70710678118654746]%float.
Proof.
  split; [vm_compute; discriminate |]. split; [reflexivity |].
  destruct (proj2 (@locomotion_always_paired_t_test (stand_in 0.01) sample_two
                     "Entries_ClosedArms"))
    as [H _]; [vm_compute; discriminate | reflexivity |].
  rewrite H. vm_compute. reflexivity.
Defined.

Lemma locomotion_no_minimum_sample_size_witness :
  let subset := select_cell "Entries_ClosedArms" "PD" sample_two in
  subset <> []
  /\ length (values_of_condition "No-Stim" subset) < 3
  /\ (exists row, @locomotion_cell (stand_in 0.5) sample_two "Entries_ClosedArms"
                  = Returns [row])
  /\ @paired_stats (stand_in 0.5) subset = Returns None.
Proof.
  split; [vm_compute; discriminate |]. split; [vm_compute; lia |].
  destruct (@locomotion_no_minimum_sample_size (stand_in 0.5) sample_two
              "Entries_ClosedArms")
    as (H1 & H2 & _);
    [vm_compute; discriminate | reflexivity | vm_compute; lia |].
  split; [eexists; exact H1 | exact H2].
Defined.

(* ================================================================== *)
(** * The within-subject table *)
(* ================================================================== *)

Section WithinSubjectFacts.

Context {lib : StatsLib}.

(** Every column of a pivot has one cell per row of its index. *)
Lemma pivot_column_length (temp : DataFrame) (name : string) (a : Np.array) :
  getcol name (pivot_table temp) = Returns a ->
  length a = length (w_index (pivot_table temp)).
Proof.
  unfold getcol.
  destruct (find _ (w_columns (pivot_table temp))) as [kv |] eqn:F; [| discriminate].
  intros H. injection H as <-.
  apply find_some in F. destruct F as [Hin _].
  unfold pivot_table in Hin. cbn [w_columns] in Hin.
  apply in_map_iff in Hin. destruct Hin as (c & <- & _).
  cbn [snd]. rewrite length_map. reflexivity.
Qed.

Lemma scale_nth (a : Np.array) (k : float) (i : nat) :
  i < length a ->
  nth i (Np.scale a k) 0%float = (nth i a 0 * k)%float.
Proof.
  intros Hi. unfold Np.scale.
  rewrite (nth_indep _ 0%float (0 * k)%float) by (rewrite length_map; exact Hi).
  apply (map_nth (fun x => (x * k)%float)).
Qed.

(** C7.  For every row of the within-subject table of a parameter, Delta
    is Stim minus No-Stim and Percent_Change is Delta / No-Stim * 100, both in
    binary64 arithmetic; in a row whose No-Stim value is zero the percent
    change is NaN or an infinity.  Building the table raises nothing once
    the pivot has its two columns. *)
Theorem within_subject_delta_and_percent
        (long_df : DataFrame) (param : string) (stim no_stim : Np.array) :
  let temp := select_cell param "PD" long_df in
  let wide := pivot_table temp in
  temp <> [] ->
  getcol "Stim" wide = Returns stim ->
  getcol "No-Stim" wide = Returns no_stim ->
  exists t : WithinTable,
    within_subject_cell long_df param = Returns [t]
    /\ wt_wide t = wide /\ wt_Parameter t = param
    /\ length (wt_Delta_Stim_minus_NoStim t) = length (w_index wide)
    /\ length (wt_Percent_Change t) = length (w_index wide)
    /\ forall i, i < length (w_index wide) ->
         let baseline := nth i no_stim 0%float in
         let intervention := nth i stim 0%float in
         let delta := nth i (wt_Delta_Stim_minus_NoStim t) 0%float in
         let percent := nth i (wt_Percent_Change t) 0%float in
         delta = (intervention - baseline)%float
         /\ percent = (delta / baseline * 100)%float
         /\ ((baseline =? 0)%float = true -> is_finite percent = false).
Proof.
  intros temp wide Hne Hs Hn.
  pose proof (pivot_column_length temp _ _ Hs) as Ls.
  pose proof (pivot_column_length temp _ _ Hn) as Ln.
  fold wide in Ls, Ln.
  set (delta := Np.map2 PrimFloat.sub stim no_stim).
  assert (Ld : length delta = length (w_index wide)).
  { unfold delta. rewrite map2_length; congruence. }
  assert (Lq : length (Np.div delta no_stim) = length (w_index wide)).
  { unfold Np.div. rewrite map2_length; congruence. }
  exists (mkWithinTable wide delta (Np.scale (Np.div delta no_stim) 100%float) param).
  split; [| split; [reflexivity | split; [reflexivity | split; [exact Ld | split]]]].
  - unfold within_subject_cell. fold temp.
    destruct temp as [| r rest] eqn:E; [congruence |].
    fold wide. rewrite Hs. cbn [bind]. rewrite Hn. cbn [bind]. reflexivity.
  - cbn [wt_Percent_Change]. unfold Np.scale. rewrite length_map. exact Lq.
  - intros i Hi. cbn [wt_Delta_Stim_minus_NoStim wt_Percent_Change]. cbv zeta.
    assert (Ed : nth i delta 0%float
                 = (nth i stim 0 - nth i no_stim 0)%float).
    { unfold delta. apply map2_nth; congruence. }
    assert (Ep : nth i (Np.scale (Np.div delta no_stim) 100) 0%float
                 = (nth i delta 0 / nth i no_stim 0 * 100)%float).
    { rewrite scale_nth by congruence. f_equal.
      unfold Np.div. apply map2_nth; congruence. }
    split; [exact Ed | split; [exact Ep |]].
    intros Hz. rewrite Ep.
    now apply FloatFacts.percent_of_zero_base_not_finite.
Qed.

End WithinSubjectFacts.

Lemma within_subject_delta_and_percent_witness :
  let temp := select_cell "Time_OpenArms" "PD" sample_zero_baseline in
  let wide := @pivot_table (stand_in 0.5) temp in
  temp <> []
  /\ getcol "Stim" wide = Returns [2; 5; 0]%float
  /\ getcol "No-Stim" wide = Returns [0; 4; 0]%float
  /\ exists t : WithinTable,
       @within_subject_cell (stand_in 0.5) sample_zero_baseline "Time_OpenArms"
       = Returns [t]
       /\ is_finite (nth 0 (wt_Percent_Change t) 0%float) = false
       /\ nth 1 (wt_Percent_Change t) 0%float = 25%float.
Proof.
  split; [vm_compute; discriminate |].
  split; [vm_compute; reflexivity |]. split; [vm_compute; reflexivity |].
  destruct (@within_subject_delta_and_percent (stand_in 0.5) sample_zero_baseline
              "Time_OpenArms" [2; 5; 0]%float [0; 4; 0]%float)
    as (t & Ht & _ & _ & _ & _ & Hrows);
    [vm_compute; discriminate | vm_compute; reflexivity
     | vm_compute; reflexivity |].
  exists t. split; [exact Ht |]. split.
  - destruct (Hrows 0) as (_ & _ & Hz); [vm_compute; lia |].
    apply Hz. vm_compute. reflexivity.
  - destruct (Hrows 1) as (Hd & Hp & _); [vm_compute; lia |].
    cbv zeta in Hd, Hp. rewrite Hp, Hd. vm_compute. reflexivity.
Defined.

(* ================================================================== *)
(** * The column parser *)
(* ================================================================== *)

(** C8.  A column whose stripped name starts with "PD_" (or "CO_") gets the
    bare prefix "PD" (or "CO") as its subject, whatever follows: every
    subject written in that style falls on one identifier per group.  In
    general the subject is the stripped name up to its first underscore, so
    "PD1_Stim" and "PD2_Stim" keep the distinct subjects "PD1" and "PD2". *)
Theorem parse_column_subject_is_first_token :
  (forall col rest : string,
      strip_noise col = ("PD_" ++ rest)%string ->
      parse_column col
      = option_map (fun condition => ("PD", "PD", condition))
                   (condition_of (strip_noise col)))
  /\ (forall col rest : string,
         strip_noise col = ("CO_" ++ rest)%string ->
         parse_column col
         = option_map (fun condition => ("CO", "Control", condition))
                      (condition_of (strip_noise col)))
  /\ (forall col subject group condition,
         parse_column col = Some (subject, group, condition) ->
         subject = split_head "_"%char (strip_noise col))
  /\ parse_column "PD_1_NoStim" = Some ("PD", "PD", "No-Stim")
  /\ parse_column "PD_2_NoStim" = Some ("PD", "PD", "No-Stim")
  /\ parse_column "PD_2_Stim" = Some ("PD", "PD", "Stim")
  /\ parse_column "CO_2_NoStim" = Some ("CO", "Control", "No-Stim")
  /\ parse_column "PD1_Stim" = Some ("PD1", "PD", "Stim")
  /\ parse_column "PD2_Stim" = Some ("PD2", "PD", "Stim")
  /\ parse_column "CO2_Stim" = Some ("CO2", "Control", "Stim").
Proof.
  split; [| split; [| split]].
  - intros col rest H. unfold parse_column. rewrite H. cbn.
    now destruct (condition_of _).
  - intros col rest H. unfold parse_column. rewrite H. cbn.
    now destruct (condition_of _).
  - intros col subject group condition. unfold parse_column.
    destruct (group_of _); [| discriminate].
    destruct (condition_of _); [| discriminate].
    intros H. now injection H as <- _ _.
  - repeat split; reflexivity.
Qed.

Lemma parse_column_subject_is_first_token_witness :
  strip_noise "PD _7_No-Stim" = ("PD_" ++ "7_NoStim")%string
  /\ parse_column "PD _7_No-Stim" = Some ("PD", "PD", "No-Stim").
Proof.
  split; [reflexivity |].
  rewrite (proj1 parse_column_subject_is_first_token "PD _7_No-Stim" "7_NoStim"
                 eq_refl).
  reflexivity.
Defined.

(* ================================================================== *)
(** * Holm's procedure: structure, for any number type *)
(* ================================================================== *)

Section HolmStructure.

Context {P : Type} (ops : pnum P).

Lemma set_item_length (i : nat) (v : P) (a : list P) :
  length (set_item i v a) = length a.
Proof.
  revert i. induction a as [| x a IH]; intros [| i]; simpl; auto.
Qed.

Lemma item_set_item_same (i : nat) (v : P) (a : list P) :
  i < length a -> item ops (set_item i v a) i = v.
Proof.
  unfold item. revert i. induction a as [| x a IH]; intros [| i] Hi; simpl in *;
    try lia; auto. apply IH. lia.
Qed.

Lemma item_set_item_other (i j : nat) (v : P) (a : list P) :
  i <> j -> item ops (set_item i v a) j = item ops a j.
Proof.
  unfold item. revert i j.
  induction a as [| x a IH]; intros [| i] [| j] Hne; simpl; auto; try congruence.
Qed.

Lemma put_length (out : list P) (sortind : list nat) (vals : list P) :
  length (put out sortind vals) = length out.
Proof.
  revert out vals. induction sortind as [| i idx IH]; intros out [| v vals];
    simpl; auto. rewrite IH. apply set_item_length.
Qed.

Lemma put_item_other (out : list P) (sortind : list nat) (vals : list P) (j : nat) :
  ~ In j sortind -> item ops (put out sortind vals) j = item ops out j.
Proof.
  revert out vals. induction sortind as [| i idx IH]; intros out [| v vals] Hj;
    simpl; auto.
  rewrite IH by (intros H; apply Hj; now right).
  apply item_set_item_other. intros ->. apply Hj. now left.
Qed.

(** Reading a buffer back through the indices it was written through gives
    the values written, when no index repeats or falls outside. *)
Lemma take_put (out : list P) (sortind : list nat) (vals : list P) :
  NoDup sortind ->
  (forall i, In i sortind -> i < length out) ->
  length sortind = length vals ->
  take ops (put out sortind vals) sortind = vals.
Proof.
  revert out vals. induction sortind as [| i idx IH]; intros out [| v vals] Hnd Hin Hlen;
    simpl in *; try discriminate; auto.
  inversion Hnd as [| ? ? Hni Hnd']; subst.
  f_equal.
  - rewrite put_item_other by exact Hni.
    apply item_set_item_same. apply Hin. now left.
  - apply IH; auto.
    intros j Hj. rewrite set_item_length. apply Hin. now right.
Qed.

Lemma insert_index_perm (pvals : list P) (i : nat) (sorted : list nat) :
  Permutation (insert_index ops pvals i sorted) (i :: sorted).
Proof.
  induction sorted as [| j rest IH]; simpl.
  - apply Permutation_refl.
  - destruct (p_less ops _ _).
    + eapply perm_trans; [apply perm_skip, IH | apply perm_swap].
    + apply Permutation_refl.
Qed.

Lemma argsort_perm (pvals : list P) :
  Permutation (argsort ops pvals) (seq 0 (length pvals)).
Proof.
  unfold argsort. induction (seq 0 (length pvals)) as [| i l IH]; simpl.
  - constructor.
  - eapply perm_trans; [apply insert_index_perm | now apply perm_skip].
Qed.

Lemma argsort_length (pvals : list P) :
  length (argsort ops pvals) = length pvals.
Proof.
  rewrite (Permutation_length (argsort_perm pvals)). apply length_seq.
Qed.

Lemma argsort_NoDup (pvals : list P) : NoDup (argsort ops pvals).
Proof.
  eapply Permutation_NoDup; [apply Permutation_sym, argsort_perm | apply seq_NoDup].
Qed.

Lemma argsort_in_range (pvals : list P) (i : nat) :
  In i (argsort ops pvals) <-> i < length pvals.
Proof.
  split; intros H.
  - apply (Permutation_in _ (argsort_perm pvals)) in H.
    apply in_seq in H. lia.
  - apply (Permutation_in _ (Permutation_sym (argsort_perm pvals))).
    apply in_seq. lia.
Qed.

Lemma mul_arange_down_length (a : list P) (k : nat) :
  length (mul_arange_down ops a k) = length a.
Proof.
  revert k. induction a as [| x a IH]; intros k; simpl; auto.
Qed.

Lemma accumulate_from_length (m : P) (a : list P) :
  length (accumulate_from ops m a) = length a.
Proof.
  revert m. induction a as [| x a IH]; intros m; simpl; auto.
Qed.

Lemma maximum_accumulate_length (a : list P) :
  length (maximum_accumulate ops a) = length a.
Proof.
  destruct a; simpl; auto. now rewrite accumulate_from_length.
Qed.

Lemma cap_at_one_length (a : list P) : length (cap_at_one ops a) = length a.
Proof. apply length_map. Qed.

Lemma corrected_in_step_order_length (pvals : list P) :
  length (corrected_in_step_order ops pvals) = length pvals.
Proof.
  unfold corrected_in_step_order, take.
  now rewrite cap_at_one_length, maximum_accumulate_length,
    mul_arange_down_length, length_map, argsort_length.
Qed.

Lemma holm_length (pvals : list P) :
  length (holm ops pvals) = length pvals.
Proof.
  unfold holm. rewrite put_length. unfold empty_like. rewrite repeat_length.
  apply corrected_in_step_order_length.
Qed.

(** Read in step order, the result of [holm] is the capped running maximum. *)
Lemma take_holm (pvals : list P) :
  take ops (holm ops pvals) (argsort ops pvals) = corrected_in_step_order ops pvals.
Proof.
  unfold holm. apply take_put.
  - apply argsort_NoDup.
  - intros i Hi. apply argsort_in_range in Hi.
    unfold empty_like. rewrite repeat_length.
    fold (corrected_in_step_order ops pvals).
    now rewrite corrected_in_step_order_length.
  - fold (corrected_in_step_order ops pvals).
    now rewrite corrected_in_step_order_length, argsort_length.
Qed.

End HolmStructure.

(* ================================================================== *)
(** * The order of binary64 values *)
(* ================================================================== *)

(** The comparisons of primitive floats are specified through their
    images in [spec_float]; the order facts below are read off
    [SFcompare]. *)

Ltac cmp_cases :=
  repeat match goal with
         | |- context [Z.compare ?a ?b] => destruct (Z.compare_spec a b)
         | H : context [Z.compare ?a ?b] |- _ => destruct (Z.compare_spec a b)
         | |- context [Pos.compare_cont Eq ?a ?b] =>
             change (Pos.compare_cont Eq a b) with (Pos.compare a b);
             destruct (Pos.compare_spec a b)
         | H : context [Pos.compare_cont Eq ?a ?b] |- _ =>
             change (Pos.compare_cont Eq a b) with (Pos.compare a b) in H;
             destruct (Pos.compare_spec a b)
         end.

Section SpecFloatOrder.

Lemma SFleb_refl (x : spec_float) : sf_is_nan x = false -> SFleb x x = true.
Proof.
  destruct x as [s | s | | s m e]; try discriminate; intros _;
    unfold SFleb, SFcompare; try (destruct s; reflexivity).
  destruct s; cmp_cases; try reflexivity; lia.
Qed.

Lemma SFleb_not_nan (x y : spec_float) :
  SFleb x y = true -> sf_is_nan x = false /\ sf_is_nan y = false.
Proof.
  destruct x, y; cbn; try discriminate; auto.
Qed.

Lemma SFleb_total (x y : spec_float) :
  sf_is_nan x = false -> sf_is_nan y = false ->
  SFleb y x = false -> SFltb x y = true.
Proof.
  destruct x as [sx | sx | | sx mx ex], y as [sy | sy | | sy my ey];
    try discriminate; intros _ _; unfold SFleb, SFltb, SFcompare;
    try (destruct sx); try (destruct sy); try discriminate; try reflexivity;
    cmp_cases; cbn; try discriminate; try reflexivity; try lia.
Qed.

Lemma SFltb_leb (x y : spec_float) : SFltb x y = true -> SFleb x y = true.
Proof.
  unfold SFltb, SFleb. destruct (SFcompare x y) as [[| |] |]; auto.
Qed.

Lemma SFltb_asym (x y : spec_float) : SFltb x y = true -> SFleb y x = true -> False.
Proof.
  destruct x as [sx | sx | | sx mx ex], y as [sy | sy | | sy my ey];
    unfold SFleb, SFltb, SFcompare;
    try (destruct sx); try (destruct sy); try discriminate;
    cmp_cases; cbn; try discriminate; try lia.
Qed.

Lemma SFleb_trans (x y z : spec_float) :
  SFleb x y = true -> SFleb y z = true -> SFleb x z = true.
Proof.
  destruct x as [sx | sx | | sx mx ex], y as [sy | sy | | sy my ey],
           z as [sz | sz | | sz mz ez];
    unfold SFleb, SFcompare;
    try (destruct sx); try (destruct sy); try (destruct sz);
    try discriminate; try reflexivity;
    cmp_cases; cbn; try discriminate; try reflexivity; try lia.
Qed.

(* ---------- rounding never goes below a representable lower bound ---------- *)

End SpecFloatOrder.

(** Rounding to nearest never returns less than a representable lower
    bound of the exact value.  It follows that a non-negative binary64
    number times a whole number between 1 and 2^53 is not below the
    number itself, although the product is rounded. *)
Section Rounding.

Local Open Scope Z_scope.

Lemma digits2_bounds (p : positive) :
  2 ^ (Zpos (digits2_pos p) - 1) <= Zpos p < 2 ^ Zpos (digits2_pos p).
Proof.
  induction p as [p IH | p IH |]; cbn [digits2_pos].
  - rewrite Pos2Z.inj_succ.
    replace (Z.succ (Zpos (digits2_pos p)) - 1) with (Z.succ (Zpos (digits2_pos p) - 1)) by lia.
    rewrite !Z.pow_succ_r by lia. lia.
  - rewrite Pos2Z.inj_succ.
    replace (Z.succ (Zpos (digits2_pos p)) - 1) with (Z.succ (Zpos (digits2_pos p) - 1)) by lia.
    rewrite !Z.pow_succ_r by lia. lia.
  - cbn. lia.
Qed.

Lemma Zdigits2_bounds (z : Z) :
  0 < z -> 2 ^ (Zdigits2 z - 1) <= z < 2 ^ Zdigits2 z.
Proof.
  destruct z as [| p | p]; try lia. intros _. apply digits2_bounds.
Qed.

Lemma shr_1_m (mrs : shr_record) :
  0 <= shr_m mrs -> shr_m (shr_1 mrs) = shr_m mrs / 2.
Proof.
  destruct mrs as [m r s]. unfold shr_1, shr_m. intros Hm.
  destruct m as [| [p | p |] | p]; try lia; try reflexivity.
  - apply (Z.div_unique _ _ _ 1); lia.
  - apply (Z.div_unique _ _ _ 0); lia.
Qed.

Lemma iter_shr_1_m (p : positive) (mrs : shr_record) :
  0 <= shr_m mrs -> shr_m (iter_pos shr_1 p mrs) = shr_m mrs / 2 ^ Zpos p.
Proof.
  revert mrs. induction p as [p IH | p IH |]; intros mrs Hm; cbn [iter_pos].
  - assert (H1 : 0 <= shr_m (shr_1 mrs))
      by (rewrite shr_1_m by lia; apply Z.div_pos; lia).
    assert (H2 : 0 <= shr_m (iter_pos shr_1 p (shr_1 mrs)))
      by (rewrite IH by lia; apply Z.div_pos; [lia | apply Z.pow_pos_nonneg; lia]).
    rewrite IH by lia. rewrite IH by lia. rewrite shr_1_m by lia.
    rewrite !Z.div_div by (first [apply Z.pow_pos_nonneg; lia | apply Z.pow_nonzero; lia | lia]).
    assert (Hpow : 2 ^ Zpos p~1 = 2 * (2 ^ Zpos p * 2 ^ Zpos p)).
    { change (Zpos p~1) with (Z.succ (2 * Zpos p)).
      rewrite Z.pow_succ_r by lia. now rewrite Z.pow_twice_r. }
    rewrite Hpow. first [reflexivity | f_equal; ring].
  - assert (H2 : 0 <= shr_m (iter_pos shr_1 p mrs))
      by (rewrite IH by lia; apply Z.div_pos; [lia | apply Z.pow_pos_nonneg; lia]).
    rewrite IH by lia. rewrite IH by lia.
    rewrite !Z.div_div by (first [apply Z.pow_pos_nonneg; lia | apply Z.pow_nonzero; lia | lia]).
    assert (Hpow : 2 ^ Zpos p~0 = 2 ^ Zpos p * 2 ^ Zpos p).
    { change (Zpos p~0) with (2 * Zpos p). apply Z.pow_twice_r. }
    rewrite Hpow. reflexivity.
  - rewrite shr_1_m by lia. reflexivity.
Qed.

Lemma shr_spec (mrs : shr_record) (e n : Z) :
  0 <= shr_m mrs ->
  shr_m (fst (shr mrs e n)) = shr_m mrs / 2 ^ Z.max 0 n
  /\ snd (shr mrs e n) = e + Z.max 0 n.
Proof.
  intros Hm. destruct n as [| p | p]; cbn [shr fst snd].
  - cbn. rewrite Z.div_1_r. split; lia.
  - rewrite iter_shr_1_m by lia. rewrite Z.max_r by lia. split; reflexivity.
  - rewrite Z.max_l by lia. cbn. rewrite Z.div_1_r. split; lia.
Qed.

Lemma shr_record_of_loc_m (m : Z) (l : location) : shr_m (shr_record_of_loc m l) = m.
Proof. destruct l as [| []]; reflexivity. Qed.

Lemma round_nearest_even_ge (m : Z) (l : location) : m <= round_nearest_even m l.
Proof.
  destruct l as [| []]; cbn; try lia. destruct (Z.even m); lia.
Qed.

Lemma fexp64 (e : Z) : fexp prec emax e = Z.max (e - 53) (-1074).
Proof. reflexivity. Qed.

Lemma binary_round_aux_ge (m M : positive) (e E : Z) :
  fexp prec emax (Zpos (digits2_pos m) + e) = e ->
  Zpos (digits2_pos m) + e <= Zpos (digits2_pos M) + E ->
  (E <= e -> Zpos m * 2 ^ (e - E) <= Zpos M) ->
  SFleb (S754_finite false m e)
        (binary_round_aux prec emax false (Zpos M) E loc_Exact) = true.
Proof.
  intros Hcan Hmag Hval. rewrite fexp64 in Hcan.
  unfold binary_round_aux, shr_fexp.
  set (d := Zdigits2 (Zpos M)).
  assert (Hd : d = Zpos (digits2_pos M)) by reflexivity.
  set (n := fexp prec emax (d + E) - E).
  assert (Hn : n = Z.max (d + E - 53) (-1074) - E) by reflexivity.
  destruct (shr_spec (shr_record_of_loc (Zpos M) loc_Exact) E n) as [Hmt Het];
    [cbn; lia |].
  destruct (shr (shr_record_of_loc (Zpos M) loc_Exact) E n) as [mrs' et].
  cbn [fst snd] in Hmt, Het. cbn [shr_record_of_loc shr_m] in Hmt.
  set (mr := round_nearest_even (shr_m mrs') (loc_of_shr_record mrs')).
  assert (Hmr : shr_m mrs' <= mr) by apply round_nearest_even_ge.
  set (n2 := fexp prec emax (Zdigits2 mr + et) - et).
  assert (Hn2 : n2 = Z.max (Zdigits2 mr + et - 53) (-1074) - et) by reflexivity.
  pose proof (digits2_bounds M) as HM. pose proof (digits2_bounds m) as Hm.
  rewrite <- Hd in HM, Hmag.
  (* the truncated mantissa is positive, and at least m when the exponent stays *)
  assert (Hpos2 : forall k, 0 <= k -> 0 < 2 ^ k) by (intros; apply Z.pow_pos_nonneg; lia).
  assert (Hmt_pos : 0 < shr_m mrs' /\ (et = e -> Zpos m <= shr_m mrs')).
  { rewrite Hmt.
    destruct (Z.eq_dec et e) as [Ee | Ne].
    - assert (HE : E <= e) by lia.
      specialize (Hval HE).
      assert (Hk : Z.max 0 n = e - E) by lia. rewrite Hk.
      assert (Hge : Zpos m <= Zpos M / 2 ^ (e - E)).
      { apply Z.div_le_lower_bound; [apply Hpos2; lia | lia]. }
      split; [lia | intros _; exact Hge].
    - split; [| intros; contradiction].
      destruct (Z.max_spec 0 n) as [[Hlt Hk] | [Hle Hk]]; rewrite Hk.
      + (* n > 0 : et = fexp > e >= emin, so n = d - 53 *)
        assert (Hnd : n = d - 53) by lia.
        apply Z.lt_le_trans with (1 := Z.lt_0_1).
        apply Z.div_le_lower_bound; [apply Hpos2; lia |].
        rewrite Z.mul_1_r. apply Z.le_trans with (2 ^ (d - 1)); [| lia].
        apply Z.pow_le_mono_r; lia.
      + rewrite Z.div_1_r. lia. }
  destruct Hmt_pos as [Hmt_pos Hmt_ge].
  assert (Hmr_pos : 0 < mr) by lia.
  destruct (shr_spec (shr_record_of_loc mr loc_Exact) et n2) as [Hmf Hef];
    [cbn; lia |].
  destruct (shr (shr_record_of_loc mr loc_Exact) et n2) as [mrs'' ef].
  cbn [fst snd] in Hmf, Hef. cbn [shr_record_of_loc shr_m] in Hmf.
  pose proof (Zdigits2_bounds mr Hmr_pos) as Hdr.
  assert (Het_ge : e <= et /\ -1074 <= et) by (clear - Het Hn Hcan Hmag; lia).
  assert (Hmf_pos : 0 < shr_m mrs'' /\ (ef = e -> Zpos m <= shr_m mrs'')).
  { rewrite Hmf.
    destruct (Z.max_spec 0 n2) as [[Hlt Hk] | [Hle Hk]]; rewrite Hk.
    - assert (Hnd : n2 = Zdigits2 mr - 53) by (clear - Hn2 Hlt Het_ge; lia).
      split; [| intros; clear - Hef Hk Hlt Het_ge H; lia].
      apply Z.lt_le_trans with (1 := Z.lt_0_1).
      apply Z.div_le_lower_bound; [apply Hpos2; lia |].
      rewrite Z.mul_1_r. apply Z.le_trans with (2 ^ (Zdigits2 mr - 1)); [| lia].
      apply Z.pow_le_mono_r; lia.
    - rewrite Z.div_1_r. split; [lia |]. intros Hee.
      assert (et = e) by (clear - Hef Hk Hee; lia). specialize (Hmt_ge H).
      clear - Hmt_ge Hmr; lia. }
  destruct Hmf_pos as [Hmf_pos Hmf_ge].
  destruct (shr_m mrs'') as [| mf | mf] eqn:Emf;
    [discriminate Hmf_pos | | discriminate Hmf_pos].
  destruct (Z.leb ef (emax - prec)); [| reflexivity].
  unfold SFleb, SFcompare.
  destruct (Z.compare_spec e ef) as [Ee | Hlt | Hgt];
    [| reflexivity | clear - Hgt Hef Het_ge; lia].
  specialize (Hmf_ge (eq_sym Ee)).
  change (Pos.compare_cont Eq m mf) with (Pos.compare m mf).
  destruct (Pos.compare_spec m mf); try reflexivity. lia.
Qed.

Lemma digits2_mul (a b : positive) :
  Zpos (digits2_pos a) + Zpos (digits2_pos b) - 1 <= Zpos (digits2_pos (a * b)).
Proof.
  pose proof (digits2_bounds a) as Ha. pose proof (digits2_bounds b) as Hb.
  pose proof (digits2_bounds (a * b)) as Hab. rewrite Pos2Z.inj_mul in Hab.
  set (da := Zpos (digits2_pos a)) in *. set (db := Zpos (digits2_pos b)) in *.
  set (dab := Zpos (digits2_pos (a * b))) in *.
  assert (H0 : 0 < da /\ 0 < db /\ 0 < dab) by (unfold da, db, dab; lia).
  assert (Hlow : 2 ^ (da - 1 + (db - 1)) <= Zpos a * Zpos b).
  { rewrite Z.pow_add_r by lia. apply Z.mul_le_mono_nonneg; try lia;
      apply Z.pow_nonneg; lia. }
  assert (Hlt : 2 ^ (da - 1 + (db - 1)) < 2 ^ dab) by lia.
  apply Z.pow_lt_mono_r_iff in Hlt; lia.
Qed.

Lemma SFmul_ge (m my : positive) (e ey : Z) :
  fexp prec emax (Zpos (digits2_pos m) + e) = e ->
  Zpos (digits2_pos my) = 53 -> -52 <= ey ->
  SFleb (S754_finite false m e)
        (SFmul prec emax (S754_finite false m e) (S754_finite false my ey)) = true.
Proof.
  intros Hcan Hdy Hey. cbn [SFmul xorb].
  apply binary_round_aux_ge; [exact Hcan | |].
  - pose proof (digits2_mul m my). lia.
  - intros HE. rewrite Pos2Z.inj_mul.
    apply Z.mul_le_mono_nonneg_l; [lia |].
    pose proof (digits2_bounds my) as Hb. rewrite Hdy in Hb.
    apply Z.le_trans with (2 ^ (53 - 1)); [| lia].
    apply Z.pow_le_mono_r; lia.
Qed.

Lemma digits2_iter_xO (p d : positive) :
  Zpos (digits2_pos (Pos.iter xO p d)) = Zpos (digits2_pos p) + Zpos d.
Proof.
  induction d as [| d IH] using Pos.peano_ind.
  - cbn [Pos.iter digits2_pos]. lia.
  - rewrite Pos.iter_succ. cbn [digits2_pos]. lia.
Qed.

Lemma binary_round_aux_normal (mz : positive) (ez : Z) :
  Zpos (digits2_pos mz) = 53 -> -52 <= ez <= 0 ->
  binary_round_aux prec emax false (Zpos mz) ez loc_Exact = S754_finite false mz ez.
Proof.
  intros Hd He. unfold binary_round_aux, shr_fexp. cbn [Zdigits2].
  rewrite Hd, fexp64. replace (Z.max (53 + ez - 53) (-1074) - ez) with 0 by lia.
  cbn [shr shr_record_of_loc shr_m loc_of_shr_record round_nearest_even Zdigits2].
  rewrite Hd, fexp64. replace (Z.max (53 + ez - 53) (-1074) - ez) with 0 by lia.
  cbn [shr shr_record_of_loc shr_m].
  replace (Z.leb ez (emax - prec)) with true; [reflexivity |].
  symmetry. apply Z.leb_le. change (emax - prec) with 971. lia.
Qed.

Lemma float_of_nat_spec (k : nat) :
  (1 <= k)%nat -> Z.of_nat k < 2 ^ 53 ->
  exists my ey,
    Prim2SF (float_of_nat k) = S754_finite false my ey
    /\ Zpos (digits2_pos my) = 53 /\ -52 <= ey.
Proof.
  intros Hk1 Hk. unfold float_of_nat. rewrite of_uint63_spec.
  assert (Hto : Uint63.to_Z (Uint63.of_Z (Z.of_nat k)) = Z.of_nat k).
  { rewrite Uint63.of_Z_spec. apply Z.mod_small. split; [lia |].
    apply Z.lt_trans with (2 ^ 53); [exact Hk | reflexivity]. }
  change (Uint63Axioms.to_Z (of_Z (Z.of_nat k))) with (Uint63.to_Z (of_Z (Z.of_nat k))).
  rewrite Hto.
  destruct (Z.of_nat k) as [| kp | kp] eqn:Ek; try lia.
  cbn [binary_normalize]. unfold binary_round.
  pose proof (digits2_bounds kp) as Hb.
  assert (Hdk : Zpos (digits2_pos kp) <= 53).
  { assert (H : 2 ^ (Zpos (digits2_pos kp) - 1) < 2 ^ 53) by lia.
    apply Z.pow_lt_mono_r_iff in H; lia. }
  rewrite fexp64. unfold shl_align.
  replace (Z.max (Zpos (digits2_pos kp) + 0 - 53) (-1074) - 0)
    with (Zpos (digits2_pos kp) - 53) by lia.
  replace (Z.max (Zpos (digits2_pos kp) + 0 - 53) (-1074))
    with (Zpos (digits2_pos kp) - 53) by lia.
  destruct (Zpos (digits2_pos kp) - 53) as [| d | d] eqn:Ed; try lia.
  - exists kp, 0. rewrite binary_round_aux_normal by lia.
    repeat split; lia.
  - exists (Pos.iter xO kp d), (Zneg d).
    assert (Hd : Zpos (digits2_pos (Pos.iter xO kp d)) = 53)
      by (rewrite digits2_iter_xO; lia).
    rewrite binary_round_aux_normal by lia.
    repeat split; lia.
Qed.

(* ---------- the order on binary64 values ---------- *)

End Rounding.

Section FloatOrder.

Local Open Scope float_scope.

Lemma is_nan_spec (x : float) : is_nan x = sf_is_nan (Prim2SF x).
Proof.
  unfold is_nan. rewrite FloatAxioms.eqb_spec. unfold SFeqb.
  destruct (Prim2SF x) as [s | s | | s m e]; cbn; try reflexivity.
  - now destruct s.
  - destruct s; cmp_cases; try reflexivity; lia.
Qed.

Lemma fle_refl (x : float) : is_nan x = false -> fle x x.
Proof.
  unfold fle. rewrite is_nan_spec, FloatAxioms.leb_spec. apply SFleb_refl.
Qed.

Lemma fle_trans (x y z : float) : fle x y -> fle y z -> fle x z.
Proof. unfold fle. rewrite !FloatAxioms.leb_spec. apply SFleb_trans. Qed.

Lemma fle_not_nan (x y : float) : fle x y -> is_nan x = false /\ is_nan y = false.
Proof. unfold fle. rewrite !is_nan_spec, FloatAxioms.leb_spec. apply SFleb_not_nan. Qed.

Lemma fle_total (x y : float) :
  is_nan x = false -> is_nan y = false -> (y <=? x) = false -> fle x y.
Proof.
  unfold fle. rewrite !is_nan_spec, !FloatAxioms.leb_spec. intros Hx Hy H.
  apply SFltb_leb. now apply SFleb_total.
Qed.

Lemma ltb_fle (x y : float) : (x <? y) = true -> fle x y.
Proof. unfold fle. rewrite FloatAxioms.ltb_spec, FloatAxioms.leb_spec. apply SFltb_leb. Qed.

Lemma not_ltb_fle (x y : float) :
  is_nan x = false -> is_nan y = false -> (x <? y) = false -> fle y x.
Proof.
  unfold fle. rewrite !is_nan_spec, FloatAxioms.ltb_spec, FloatAxioms.leb_spec. intros Hx Hy H.
  destruct (SFleb (Prim2SF y) (Prim2SF x)) eqn:E; [reflexivity |].
  rewrite (SFleb_total _ _ Hx Hy E) in H. discriminate.
Qed.

Lemma ltb_not_fle (x y : float) : (x <? y) = true -> fle y x -> False.
Proof. unfold fle. rewrite FloatAxioms.ltb_spec, FloatAxioms.leb_spec. apply SFltb_asym. Qed.

Lemma mul_nat_ge (p : float) (k : nat) :
  fle 0 p -> (1 <= k)%nat -> (Z.of_nat k < 2 ^ 53)%Z ->
  fle p (p * float_of_nat k).
Proof.
  unfold fle. rewrite !FloatAxioms.leb_spec, FloatAxioms.mul_spec. intros Hp Hk1 Hk.
  destruct (float_of_nat_spec k Hk1 Hk) as (my & ey & Ey & Hd & Hey).
  rewrite Ey. change (Prim2SF 0) with (S754_zero false) in Hp.
  pose proof (Prim2SF_valid p) as Hv.
  destruct (Prim2SF p) as [s | s | | s m e]; try discriminate Hp.
  - reflexivity.
  - destruct s; [discriminate Hp | reflexivity].
  - destruct s; [discriminate Hp |].
    apply SFmul_ge; [| exact Hd | exact Hey].
    cbn in Hv. apply andb_true_iff in Hv. destruct Hv as [Hc _].
    unfold canonical_mantissa in Hc. now apply Z.eqb_eq in Hc.
Qed.

End FloatOrder.

(* ================================================================== *)
(** * Holm's procedure on binary64 p-values: order properties *)
(* ================================================================== *)

Section ListOrder.

Context {A : Type} (R : A -> A -> Prop).

Lemma StronglySorted_map {B : Type} (f : B -> A) (l : list B) :
  StronglySorted (fun x y => R (f x) (f y)) l -> StronglySorted R (map f l).
Proof.
  induction 1 as [| x l Hs IH Hall]; simpl; constructor; auto.
  apply Forall_map. exact Hall.
Qed.

Lemma StronglySorted_monotone_map (f : A -> A) (l : list A) :
  (forall a b, R a b -> R (f a) (f b)) ->
  StronglySorted R l -> StronglySorted R (map f l).
Proof.
  intros Hf. induction 1 as [| x l Hs IH Hall]; simpl; constructor; auto.
  apply Forall_map. eapply Forall_impl; [| exact Hall]. intros y. apply Hf.
Qed.

Lemma Forall2_trans (a b c : list A) :
  (forall x y z, R x y -> R y z -> R x z) ->
  Forall2 R a b -> Forall2 R b c -> Forall2 R a c.
Proof.
  intros Ht Hab. revert c. induction Hab as [| x y a b Hxy Hab IH]; intros c Hbc;
    inversion Hbc; subst; constructor.
  - eapply Ht; eauto.
  - now apply IH.
Qed.

Lemma Forall2_map_same {B : Type} (f g : B -> A) (l : list B) :
  Forall2 R (map f l) (map g l) -> forall x, In x l -> R (f x) (g x).
Proof.
  induction l as [| y l IH]; simpl; intros H x Hx; [contradiction |].
  inversion H; subst. destruct Hx as [-> | Hx]; auto.
Qed.

Lemma Forall2_of_nth (d : A) (a b : list A) :
  length a = length b ->
  (forall i, i < length a -> R (nth i a d) (nth i b d)) ->
  Forall2 R a b.
Proof.
  revert b. induction a as [| x a IH]; intros [| y b] Hlen H; cbn in Hlen;
    try discriminate; constructor.
  - apply (H 0). cbn. lia.
  - apply IH; [lia |]. intros i Hi. apply (H (S i)). cbn. lia.
Qed.

End ListOrder.

Section HolmOnFloats.

Lemma float_less_true (a b : float) :
  is_number b -> p_less float_ops a b = true -> fle a b.
Proof.
  unfold is_number. cbn. intros Hb H. rewrite Hb, orb_false_r in H.
  now apply ltb_fle.
Qed.

Lemma float_less_false (a b : float) :
  is_number a -> is_number b -> p_less float_ops a b = false -> fle b a.
Proof.
  unfold is_number. cbn. intros Ha Hb H. apply orb_false_iff in H.
  destruct H as [H _]. now apply not_ltb_fle.
Qed.

Lemma float_maximum_number (a b : float) :
  is_number a -> is_number b -> is_number (p_maximum float_ops a b).
Proof. cbn. intros Ha Hb. now destruct (_ || _). Qed.

Lemma float_maximum_ge_l (a b : float) :
  is_number a -> is_number b -> fle a (p_maximum float_ops a b).
Proof.
  unfold is_number. cbn. intros Ha Hb. rewrite Ha, orb_false_r.
  destruct (b <=? a)%float eqn:E.
  - now apply fle_refl.
  - now apply fle_total.
Qed.

Lemma float_maximum_ge_r (a b : float) :
  is_number a -> is_number b -> fle b (p_maximum float_ops a b).
Proof.
  unfold is_number. cbn. intros Ha Hb. rewrite Ha, orb_false_r.
  destruct (b <=? a)%float eqn:E.
  - exact E.
  - now apply fle_refl.
Qed.

Lemma cap_float_monotone (a b : float) :
  fle a b -> fle (cap_float a) (cap_float b).
Proof.
  intros Hab. destruct (fle_not_nan _ _ Hab) as [Ha Hb].
  unfold cap_float. cbn.
  destruct (1 <? a)%float eqn:Ea, (1 <? b)%float eqn:Eb.
  - now apply fle_refl.
  - apply fle_trans with a; [now apply ltb_fle | exact Hab].
  - now apply not_ltb_fle.
  - exact Hab.
Qed.

Lemma cap_float_ge (p x : float) : fle p x -> fle p 1 -> fle p (cap_float x).
Proof.
  unfold cap_float. cbn. intros Hx H1. now destruct (1 <? x)%float.
Qed.

Lemma cap_float_le_one (x : float) : is_number x -> fle (cap_float x) 1.
Proof.
  unfold is_number, cap_float. cbn. intros Hx.
  destruct (1 <? x)%float eqn:E.
  - now apply fle_refl.
  - now apply not_ltb_fle.
Qed.

Lemma item_number (pvals : list float) (i : nat) :
  Forall is_number pvals -> is_number (item float_ops pvals i).
Proof.
  intros H. unfold item. destruct (Nat.lt_ge_cases i (length pvals)) as [Hi | Hi].
  - rewrite Forall_forall in H. apply H. now apply nth_In.
  - now rewrite nth_overflow.
Qed.

(** Index insertion keeps the indices in ascending order of their values. *)
Lemma insert_index_sorted (pvals : list float) (i : nat) (sorted : list nat) :
  Forall is_number pvals ->
  StronglySorted (fun x y => fle (item float_ops pvals x) (item float_ops pvals y))
                 sorted ->
  StronglySorted (fun x y => fle (item float_ops pvals x) (item float_ops pvals y))
                 (insert_index float_ops pvals i sorted).
Proof.
  intros Hn. induction 1 as [| j rest Hs IH Hall]; cbn [insert_index].
  - repeat constructor.
  - destruct (p_less float_ops (item float_ops pvals j) (item float_ops pvals i))
      eqn:E.
    + constructor; [exact IH |].
      apply (Permutation_Forall
               (Permutation_sym (insert_index_perm float_ops pvals i rest))).
      constructor; [| exact Hall].
      apply float_less_true; [now apply item_number | exact E].
    + apply float_less_false in E; try now apply item_number.
      constructor; [now constructor |].
      constructor; [exact E |].
      eapply Forall_impl; [| exact Hall].
      intros x Hx. cbn beta in *. eapply fle_trans; eauto.
Qed.

Lemma argsort_sorted (pvals : list float) :
  Forall is_number pvals ->
  StronglySorted (fun x y => fle (item float_ops pvals x) (item float_ops pvals y))
                 (argsort float_ops pvals).
Proof.
  intros Hn. unfold argsort.
  induction (seq 0 (length pvals)) as [| i l IH]; simpl.
  - constructor.
  - now apply insert_index_sorted.
Qed.

Lemma accumulate_from_number (m : float) (a : list float) :
  is_number m -> Forall is_number a -> Forall is_number (accumulate_from float_ops m a).
Proof.
  intros Hm Ha. revert m Hm.
  induction Ha as [| x a Hx Ha IH]; intros m Hm; cbn [accumulate_from];
    constructor.
  - now apply float_maximum_number.
  - apply IH. now apply float_maximum_number.
Qed.

Lemma accumulate_from_sorted (m : float) (a : list float) :
  is_number m -> Forall is_number a ->
  Sorted fle (m :: accumulate_from float_ops m a).
Proof.
  intros Hm Ha. revert m Hm.
  induction Ha as [| x a Hx Ha IH]; intros m Hm; cbn [accumulate_from].
  - repeat constructor.
  - constructor.
    + apply IH. now apply float_maximum_number.
    + constructor. now apply float_maximum_ge_l.
Qed.

Lemma maximum_accumulate_sorted (a : list float) :
  Forall is_number a -> StronglySorted fle (maximum_accumulate float_ops a).
Proof.
  intros Ha. apply Sorted_StronglySorted; [exact fle_trans |].
  destruct Ha as [| x a Hx Ha]; simpl; [constructor |].
  now apply accumulate_from_sorted.
Qed.

Lemma Forall2_fle_number (a b : list float) :
  Forall2 fle a b -> Forall is_number a /\ Forall is_number b.
Proof.
  induction 1 as [| x y a b Hxy Hab [IHa IHb]]; [split; constructor |].
  destruct (fle_not_nan _ _ Hxy). split; now constructor.
Qed.

Lemma mul_arange_down_ge (a : list float) (k : nat) :
  Forall (fle 0) a -> length a <= k -> (Z.of_nat k < 2 ^ 53)%Z ->
  Forall2 fle a (mul_arange_down float_ops a k).
Proof.
  intros Ha. revert k. induction Ha as [| p a Hp Ha IH]; intros k Hk Hb;
    simpl in *.
  - constructor.
  - constructor.
    + apply mul_nat_ge; [exact Hp | lia | exact Hb].
    + apply IH; lia.
Qed.

Lemma accumulate_from_ge (m : float) (a : list float) :
  is_number m -> Forall is_number a ->
  Forall2 fle a (accumulate_from float_ops m a).
Proof.
  intros Hm Ha. revert m Hm.
  induction Ha as [| x a Hx Ha IH]; intros m Hm; cbn [accumulate_from];
    constructor.
  - now apply float_maximum_ge_r.
  - apply IH. now apply float_maximum_number.
Qed.

Lemma maximum_accumulate_ge (a : list float) :
  Forall is_number a -> Forall2 fle a (maximum_accumulate float_ops a).
Proof.
  intros Ha. destruct Ha as [| x a Hx Ha]; simpl; constructor.
  - now apply fle_refl.
  - now apply accumulate_from_ge.
Qed.

Lemma cap_at_one_ge (l a : list float) :
  Forall2 fle l a -> Forall (fun p => fle p 1) l ->
  Forall2 fle l (cap_at_one float_ops a).
Proof.
  induction 1 as [| p x l a Hpx Hla IH]; intros H1; simpl; constructor;
    inversion H1; subst.
  - now apply cap_float_ge.
  - now apply IH.
Qed.

(** Holm's correction of raw p-values that are numbers between 0 and 1:
    every corrected value is at least its raw value and at most 1, and in
    step order neither the raw nor the corrected values decrease. *)
Lemma holm_float_order (pvals : list float) :
  (forall p, In p pvals -> is_probability p) ->
  (Z.of_nat (length pvals) < 2 ^ 53)%Z ->
  Forall2 fle pvals (holm float_ops pvals)
  /\ Forall (fun c => fle c 1) (holm float_ops pvals)
  /\ StronglySorted fle (take float_ops pvals (argsort float_ops pvals))
  /\ StronglySorted fle
       (take float_ops (holm float_ops pvals) (argsort float_ops pvals)).
Proof.
  intros Hrange Hbound.
  set (steps := argsort float_ops pvals).
  set (corrected := holm float_ops pvals).
  assert (Hnum : Forall is_number pvals).
  { apply Forall_forall. intros p Hp.
    destruct (Hrange p Hp) as [H0 _]. now destruct (fle_not_nan _ _ H0). }
  assert (Hitem : forall i, In i steps -> is_probability (item float_ops pvals i)).
  { intros i Hi. apply argsort_in_range in Hi.
    apply Hrange. unfold item. now apply nth_In. }
  assert (Hsteps : take float_ops corrected steps
                   = corrected_in_step_order float_ops pvals)
    by apply take_holm.
  assert (Hsorted : take float_ops pvals steps
                    = take float_ops pvals (argsort float_ops pvals))
    by reflexivity.
  assert (Hscaled : Forall2 fle (take float_ops pvals steps)
                      (mul_arange_down float_ops (take float_ops pvals steps)
                         (length (take float_ops pvals steps)))).
  { apply mul_arange_down_ge; [| lia |].
    - unfold take. apply Forall_map, Forall_forall.
      intros i Hi. now destruct (Hitem i Hi).
    - unfold take, steps. now rewrite length_map, argsort_length. }
  assert (Hge : Forall2 fle (take float_ops pvals steps)
                            (take float_ops corrected steps)).
  { rewrite Hsteps. unfold corrected_in_step_order. fold steps.
    apply cap_at_one_ge.
    - eapply Forall2_trans; [exact fle_trans | exact Hscaled |].
      apply maximum_accumulate_ge.
      now destruct (Forall2_fle_number _ _ Hscaled).
    - unfold take. apply Forall_map, Forall_forall.
      intros i Hi. now destruct (Hitem i Hi). }
  assert (Hcap : Forall (fun c => fle c 1) (take float_ops corrected steps)).
  { rewrite Hsteps. unfold corrected_in_step_order, cap_at_one. fold steps.
    apply Forall_map. apply Forall_forall. intros x Hx.
    apply cap_float_le_one.
    assert (Hacc : Forall is_number
                     (maximum_accumulate float_ops
                        (mul_arange_down float_ops (take float_ops pvals steps)
                           (length (take float_ops pvals steps))))).
    { pose proof (maximum_accumulate_ge _ (proj2 (Forall2_fle_number _ _ Hscaled)))
        as H.
      now destruct (Forall2_fle_number _ _ H). }
    rewrite Forall_forall in Hacc. now apply Hacc. }
  split; [| split; [| split]].
  - apply (Forall2_of_nth fle (p_one float_ops));
      [unfold corrected; now rewrite holm_length |].
    intros i Hi.
    apply (Forall2_map_same fle (item float_ops pvals) (item float_ops corrected)
             steps Hge).
    now apply argsort_in_range.
  - apply Forall_forall. intros c Hc.
    apply (In_nth _ _ (p_one float_ops)) in Hc. destruct Hc as (i & Hi & <-).
    unfold corrected in Hi. rewrite holm_length in Hi.
    rewrite Forall_forall in Hcap. apply Hcap.
    unfold take. apply in_map_iff. exists i.
    split; [reflexivity | now apply argsort_in_range].
  - unfold take. apply StronglySorted_map. now apply argsort_sorted.
  - fold steps corrected. rewrite Hsteps.
    unfold corrected_in_step_order, cap_at_one.
    apply (StronglySorted_monotone_map fle cap_float); [exact cap_float_monotone |].
    apply maximum_accumulate_sorted.
    now destruct (Forall2_fle_number _ _ Hscaled).
Qed.

End HolmOnFloats.

(* ================================================================== *)
(** * The Holm loop: one family per group *)
(* ================================================================== *)

Lemma in_group_with_p_holm (g : string) (r : ResultRow) (p : float) :
  in_group g (with_p_holm r p) = in_group g r.
Proof. reflexivity. Qed.

Lemma pvals_of_ext (g : string) (a b : list ResultRow) :
  map res_Group a = map res_Group b -> map p_raw a = map p_raw b ->
  pvals_of g a = pvals_of g b.
Proof.
  unfold pvals_of. revert b.
  induction a as [| x a IH]; intros [| y b] Hg Hp; simpl in *;
    try discriminate; auto.
  injection Hg as Hg1 Hg2. injection Hp as Hp1 Hp2.
  assert (E : in_group g x = in_group g y) by (unfold in_group; now rewrite Hg1).
  rewrite E. destruct (in_group g y); simpl.
  - f_equal; auto.
  - now apply IH.
Qed.

(** Writing one value per masked row succeeds; it changes the [p_holm] of
    the rows of the group and nothing else. *)
Lemma set_p_holm_spec (grp : string) (rs : list ResultRow) :
  forall p_corr : list float,
    length p_corr = length (filter (in_group grp) rs) ->
    exists rs' : list ResultRow,
      set_p_holm grp p_corr rs = Returns rs'
      /\ map res_Group rs' = map res_Group rs
      /\ map p_raw rs' = map p_raw rs
      /\ map p_holm (filter (in_group grp) rs') = p_corr
      /\ forall g, g <> grp -> filter (in_group g) rs' = filter (in_group g) rs.
Proof.
  induction rs as [| r rest IH]; intros p_corr Hlen; cbn [set_p_holm filter].
  - destruct p_corr; [| discriminate]. exists []. repeat split; auto.
  - cbn [filter] in Hlen. destruct (in_group grp r) eqn:E.
    + destruct p_corr as [| p ps]; [discriminate |].
      cbn [length] in Hlen. injection Hlen as Hlen.
      destruct (IH ps Hlen) as (rest' & Hset & Hg & Hp & Hh & Ho).
      exists (with_p_holm r p :: rest'). rewrite Hset. cbn [bind].
      split; [reflexivity |]. split; [cbn; now rewrite Hg |].
      split; [cbn; now rewrite Hp |]. split.
      * cbn [filter]. rewrite in_group_with_p_holm, E. cbn. now rewrite Hh.
      * intros g Hne. cbn [filter]. rewrite in_group_with_p_holm.
        assert (Eg : in_group g r = false).
        { unfold in_group in *. apply String.eqb_eq in E.
          apply String.eqb_neq. congruence. }
        rewrite Eg. now apply Ho.
    + destruct (IH p_corr Hlen) as (rest' & Hset & Hg & Hp & Hh & Ho).
      exists (r :: rest'). rewrite Hset. cbn [bind].
      split; [reflexivity |]. split; [cbn; now rewrite Hg |].
      split; [cbn; now rewrite Hp |]. split.
      * cbn [filter]. now rewrite E.
      * intros g Hne. cbn [filter]. rewrite (Ho g Hne). reflexivity.
Qed.

Lemma pvals_of_present (grp : string) (rs : list ResultRow) :
  In grp (map res_Group rs) -> pvals_of grp rs <> [].
Proof.
  unfold pvals_of. induction rs as [| r rs IH]; cbn [map filter]; [intros [] |].
  intros [E | H].
  - unfold in_group. rewrite E, String.eqb_refl. discriminate.
  - destruct (in_group grp r); [discriminate | now apply IH].
Qed.

(** One pass of the loop body, for a group that occurs in the table. *)
Lemma holm_group_spec (grp : string) (rs : list ResultRow) :
  In grp (map res_Group rs) ->
  exists rs' : list ResultRow,
    holm_group grp rs = Returns rs'
    /\ map res_Group rs' = map res_Group rs
    /\ map p_raw rs' = map p_raw rs
    /\ map p_holm (filter (in_group grp) rs') = holm float_ops (pvals_of grp rs)
    /\ forall g, g <> grp -> filter (in_group g) rs' = filter (in_group g) rs.
Proof.
  intros Hin. unfold holm_group, multipletests_holm.
  destruct (pvals_of grp rs) as [| p ps] eqn:E;
    [now apply pvals_of_present in Hin |].
  cbn [bind]. rewrite <- E. apply set_p_holm_spec.
  rewrite holm_length. unfold pvals_of. apply length_map.
Qed.

(** The loop over a list of groups: every group of the list ends with the
    Holm correction of its own raw p-values, the rows of every other group
    are left as they were. *)
Lemma holm_groups_spec (grps : list string) :
  forall rs : list ResultRow,
    (forall g, In g grps -> In g (map res_Group rs)) ->
    exists out : list ResultRow,
      holm_groups grps rs = Returns out
      /\ map res_Group out = map res_Group rs
      /\ map p_raw out = map p_raw rs
      /\ forall g,
           (In g grps ->
            map p_holm (filter (in_group g) out) = holm float_ops (pvals_of g rs))
           /\ (~ In g grps -> filter (in_group g) out = filter (in_group g) rs).
Proof.
  induction grps as [| grp grps IH]; intros rs Hpresent; cbn [holm_groups].
  - exists rs. repeat split; auto. intros [].
  - destruct (holm_group_spec grp rs) as (rs1 & H1 & Hg1 & Hp1 & Hh1 & Ho1);
      [apply Hpresent; now left |].
    destruct (IH rs1) as (out & H2 & Hg2 & Hp2 & Hall);
      [intros g Hg; rewrite Hg1; apply Hpresent; now right |].
    exists out. rewrite H1. cbn [bind].
    split; [exact H2 |]. split; [congruence |]. split; [congruence |].
    intros g. destruct (Hall g) as [Hin Hout]. split.
    + intros Hg. destruct (in_dec string_dec g grps) as [Hi | Hni].
      * rewrite (Hin Hi). f_equal. now apply pvals_of_ext.
      * rewrite (Hout Hni).
        destruct Hg as [-> | Hg]; [exact Hh1 | contradiction].
    + intros Hni. rewrite Hout by (intros H; apply Hni; now right).
      apply Ho1. intros ->. apply Hni. now left.
Qed.

Lemma unique_aux_complete (x : string) (l seen : list string) :
  In x l -> In x seen \/ In x (unique_aux seen l).
Proof.
  revert seen. induction l as [| y l IH]; intros seen Hx; [contradiction |].
  cbn [unique_aux]. destruct (existsb (String.eqb y) seen) eqn:E.
  - destruct Hx as [-> | Hx]; [| now apply IH].
    left. apply existsb_exists in E. destruct E as (z & Hz & Ez).
    apply String.eqb_eq in Ez. now subst.
  - destruct Hx as [-> | Hx]; [right; now left |].
    destruct (IH (y :: seen) Hx) as [[-> | Hs] | Hu]; auto.
    + right. now left.
    + right. now right.
Qed.

Lemma unique_aux_sound (x : string) (l seen : list string) :
  In x (unique_aux seen l) -> In x l.
Proof.
  revert seen. induction l as [| y l IH]; intros seen; cbn [unique_aux]; auto.
  destruct (existsb (String.eqb y) seen).
  - intros H. right. now apply (IH seen).
  - intros [-> | H]; [now left | right; now apply (IH (y :: seen))].
Qed.

Lemma unique_complete (x : string) (l : list string) :
  In x l -> In x (unique l).
Proof.
  intros H. destruct (unique_aux_complete x l [] H) as [[] | Hu]. exact Hu.
Qed.

Lemma filter_absent_group (g : string) (rs : list ResultRow) :
  ~ In g (map res_Group rs) -> filter (in_group g) rs = [].
Proof.
  induction rs as [| r rs IH]; intros H; cbn [filter]; auto.
  destruct (in_group g r) eqn:E.
  - exfalso. apply H. left. unfold in_group in E. now apply String.eqb_eq in E.
  - apply IH. intros Hin. apply H. now right.
Qed.

(** The whole loop returns, and gives every group the Holm correction of
    the raw p-values of that group alone. *)
Lemma holm_correction_spec (rs : list ResultRow) :
  exists out : list ResultRow,
    holm_correction rs = Returns out
    /\ map res_Group out = map res_Group rs
    /\ map p_raw out = map p_raw rs
    /\ forall g, map p_holm (filter (in_group g) out)
                 = holm float_ops (pvals_of g rs).
Proof.
  unfold holm_correction.
  destruct (holm_groups_spec (unique (map res_Group rs)) rs)
    as (out & H & Hg & Hp & Hall);
    [intros g; apply unique_aux_sound |].
  exists out. repeat split; auto.
  intros g. destruct (Hall g) as [Hin Hout].
  destruct (in_dec string_dec g (unique (map res_Group rs))) as [Hi | Hni];
    [now apply Hin |].
  rewrite (Hout Hni).
  assert (E : filter (in_group g) rs = []).
  { apply filter_absent_group. intros Hm. apply Hni. now apply unique_complete. }
  unfold pvals_of. rewrite E. reflexivity.
Qed.

(** C3.  The corrected p-values of a group are the Holm correction of that
    group's own raw p-values and of nothing else: two results tables that
    list the same raw p-values for a group get the same corrected values
    for it, however the rows of the other groups differ between them
    (permuted, changed, added or removed). *)
Theorem holm_correction_groups_independent
        (rs1 rs2 : list ResultRow) (g : string) :
  pvals_of g rs1 = pvals_of g rs2 ->
  exists out1 out2 : list ResultRow,
    holm_correction rs1 = Returns out1
    /\ holm_correction rs2 = Returns out2
    /\ map p_holm (filter (in_group g) out1) = holm float_ops (pvals_of g rs1)
    /\ map p_holm (filter (in_group g) out2)
       = map p_holm (filter (in_group g) out1).
Proof.
  intros Hsame.
  destruct (holm_correction_spec rs1) as (out1 & H1 & _ & _ & Hh1).
  destruct (holm_correction_spec rs2) as (out2 & H2 & _ & _ & Hh2).
  exists out1, out2. repeat split; auto.
  rewrite Hh1, Hh2. now rewrite Hsame.
Qed.

Lemma holm_correction_groups_independent_witness :
  pvals_of "PD" sample_results = pvals_of "PD" sample_results_other_control
  /\ pvals_of "Control" sample_results
     <> pvals_of "Control" sample_results_other_control
  /\ exists out1 out2 : list ResultRow,
       holm_correction sample_results = Returns out1
       /\ holm_correction sample_results_other_control = Returns out2
       /\ map p_holm (filter (in_group "PD") out2)
          = map p_holm (filter (in_group "PD") out1).
Proof.
  split; [reflexivity |]. split; [vm_compute; discriminate |].
  destruct (holm_correction_groups_independent
              sample_results sample_results_other_control "PD" eq_refl)
    as (out1 & out2 & H1 & H2 & _ & Heq).
  exists out1, out2. auto.
Defined.

(* ================================================================== *)
(** * The Holm loop: corrected against raw, step by step *)
(* ================================================================== *)

(** What the Holm loop leaves in one group, in terms of the returned
    table alone: the [p_holm] column of the group is Holm's correction of
    its [p_raw] column, and the raw p-values are those of the input. *)
Lemma holm_correction_group (rs out : list ResultRow) (g : string) :
  holm_correction rs = Returns out ->
  map p_holm (filter (in_group g) out)
  = holm float_ops (map p_raw (filter (in_group g) out))
  /\ map res_Group out = map res_Group rs
  /\ map p_raw out = map p_raw rs.
Proof.
  intros H.
  destruct (holm_correction_spec rs) as (out' & H' & Hg & Hp & Hh).
  rewrite H in H'. injection H' as <-.
  split; [| split; assumption].
  rewrite Hh. f_equal. symmetry. now apply pvals_of_ext.
Qed.

Lemma holm_correction_group_range (rs out : list ResultRow) (g : string) :
  map p_raw out = map p_raw rs ->
  (forall r, In r rs -> is_probability (p_raw r)) ->
  (Z.of_nat (length rs) < 2 ^ 53)%Z ->
  (forall p, In p (map p_raw (filter (in_group g) out)) -> is_probability p)
  /\ (Z.of_nat (length (map p_raw (filter (in_group g) out))) < 2 ^ 53)%Z.
Proof.
  intros Hp Hrange Hbound. split.
  - intros p Hin. apply in_map_iff in Hin. destruct Hin as (r & <- & Hr).
    apply filter_In in Hr. destruct Hr as [Hr _].
    assert (Hin : In (p_raw r) (map p_raw rs))
      by (rewrite <- Hp; now apply in_map).
    apply in_map_iff in Hin. destruct Hin as (r0 & <- & Hr0). now apply Hrange.
  - rewrite length_map.
    pose proof (filter_length_le (in_group g) out) as Hle.
    assert (Hlen : length out = length rs)
      by (rewrite <- (length_map p_raw out), Hp; apply length_map).
    lia.
Qed.




(* ================================================================== *)
(** * Worked examples *)
(* ================================================================== *)

(** Baseline 1..5 against 2, 3, 4, 5, 7 with a normality p-value above
    0.05: the paired t-test, and dz = 1.2 / 0.447... *)
Example paired_stats_five_subjects :
  @paired_stats (stand_in 0.5) sample_five
  = Returns (Some (mkTestTuple test_t 2.5 0.03125 2.6832815729997477)%float).
Proof. vm_compute. reflexivity. Qed.

(** The same cell with a normality p-value of 0.01: Wilcoxon. *)
Example paired_stats_five_subjects_not_normal :
  @paired_stats (stand_in 0.01) sample_five
  = Returns (Some (mkTestTuple test_w 0 0.0625 2.6832815729997477)%float).
Proof. vm_compute. reflexivity. Qed.

(** A NaN normality p-value is not above 0.05: Wilcoxon again. *)
Example paired_stats_nan_normality :
  @paired_stats (stand_in Np.nan) sample_five
  = Returns (Some (mkTestTuple test_w 0 0.0625 2.6832815729997477)%float).
Proof. vm_compute. reflexivity. Qed.

(** Rows are paired by position, not by subject: with No-Stim listed as
    A, B, C and Stim as C, A, B the differences are 30-1, 10-2, 20-3. *)
Example pairing_is_positional :
  Np.sub (values_of_condition "Stim" sample_shuffled)
         (values_of_condition "No-Stim" sample_shuffled)
  = Returns [29; 8; 17]%float.
Proof. vm_compute. reflexivity. Qed.

(** Columns in the underscore style all land on the subject "PD"; the
    column that does not parse is skipped. *)
Example underscore_columns_share_a_subject :
  map (fun r => (Subject r, Condition r))
      (build_long_df sample_underscore_columns
                     [("Time_OpenArms", [1; 2; 3; 4; 5]%float)])
  = [("PD", "No-Stim"); ("PD", "Stim"); ("PD", "No-Stim"); ("PD", "Stim")].
Proof. vm_compute. reflexivity. Qed.

(** Holm on binary64 values: 0.01, 0.03, 0.4 scaled by 3, 2, 1. *)
Example holm_on_floats :
  multipletests_holm float_ops [0.03; 0.01; 0.4]%float
  = Returns [0.03 * 2; 0.01 * 3; 0.4]%float.
Proof. vm_compute. reflexivity. Qed.

(** The Holm loop on a table with two groups: each group is corrected as a
    family of its own (three PD rows, two Control rows). *)
Example holm_correction_two_groups :
  match holm_correction sample_results with
  | Returns out => map p_holm out
  | Raises _ => []
  end
  = [0.03 * 2; 0.5; 0.01 * 3; 0.25 * 2; 0.4]%float.
Proof. vm_compute. reflexivity. Qed.

(** The within-subject table of a cell with two zero baselines: the percent
    changes are infinity (2/0), 25 and NaN (0/0). *)
Example within_subject_zero_baseline :
  match @within_subject_cell (stand_in 0.5) sample_zero_baseline "Time_OpenArms" with
  | Returns [t] =>
      map is_finite (wt_Percent_Change t) = [false; true; false]
      /\ wt_Delta_Stim_minus_NoStim t = [2; 1; 0]%float
  | _ => False
  end.
Proof. vm_compute. split; reflexivity. Qed.

(* ================================================================== *)
(** * The column parser: noise, ranges, precedence *)
(* ================================================================== *)

Lemma remove_char_app (ch : ascii) (a b : string) :
  remove_char ch (a ++ b) = (remove_char ch a ++ remove_char ch b)%string.
Proof.
  induction a as [| x a IH]; cbn; [reflexivity |].
  destruct (Ascii.eqb x ch); cbn; now rewrite IH.
Qed.

Lemma remove_char_absent (ch : ascii) (s : string) :
  remove_char ch (remove_char ch s) = remove_char ch s.
Proof.
  induction s as [| x s IH]; cbn; [reflexivity |].
  destruct (Ascii.eqb x ch) eqn:E; cbn; [exact IH |].
  now rewrite E, IH.
Qed.

Lemma remove_char_comm (c1 c2 : ascii) (s : string) :
  remove_char c1 (remove_char c2 s) = remove_char c2 (remove_char c1 s).
Proof.
  induction s as [| x s IH]; cbn; [reflexivity |].
  destruct (Ascii.eqb x c2) eqn:E2, (Ascii.eqb x c1) eqn:E1; cbn;
    rewrite ?E1, ?E2; now rewrite ?IH.
Qed.

Lemma strip_noise_app (a b : string) :
  strip_noise (a ++ b) = (strip_noise a ++ strip_noise b)%string.
Proof. unfold strip_noise. now rewrite !remove_char_app. Qed.

Lemma strip_noise_idempotent (col : string) :
  strip_noise (strip_noise col) = strip_noise col.
Proof.
  unfold strip_noise.
  rewrite (remove_char_comm " " "-" (remove_char " " col)).
  now rewrite !remove_char_absent.
Qed.

Lemma prefix_split (p s : string) :
  String.prefix p s = true -> exists rest, s = (p ++ rest)%string.
Proof.
  revert s. induction p as [| a p IH]; intros s H.
  - now exists s.
  - destruct s as [| b s]; [discriminate |]. cbn in H.
    destruct (ascii_dec a b) as [-> | Hne]; [| discriminate].
    destruct (IH s H) as [rest ->]. now exists rest.
Qed.

(** X1.  Spaces and hyphens never matter to [parse_column]: one more of
    either, anywhere in the name, leaves the result as it was, and a name
    parses like its stripped form. *)
Theorem parse_column_ignores_noise (a b : string) :
  parse_column (a ++ String " " b) = parse_column (a ++ b)
  /\ parse_column (a ++ String "-" b) = parse_column (a ++ b)
  /\ parse_column (strip_noise (a ++ b)) = parse_column (a ++ b).
Proof.
  unfold parse_column. rewrite strip_noise_idempotent, !strip_noise_app.
  repeat split; reflexivity.
Qed.

(** X2.  Whatever parses has group "PD" or "Control" and condition
    "No-Stim" or "Stim", and its subject starts with the letters of its
    group ("PD" or "CO"): a PD column and a Control column never share a
    subject. *)
Theorem parse_column_range (col subject group condition : string) :
  parse_column col = Some (subject, group, condition) ->
  (condition = "No-Stim" \/ condition = "Stim")
  /\ ((group = "PD" /\ String.prefix "PD" subject = true)
      \/ (group = "Control" /\ String.prefix "CO" subject = true))
  /\ forall col' subject' condition',
       group = "PD" ->
       parse_column col' = Some (subject', "Control", condition') ->
       subject <> subject'.
Proof.
  unfold parse_column, group_of, condition_of.
  set (c := strip_noise col).
  assert (Hgen : forall x,
             (String.prefix "PD" x = true ->
              String.prefix "PD" (split_head "_" x) = true)
             /\ (String.prefix "CO" x = true ->
                 String.prefix "CO" (split_head "_" x) = true)).
  { intros x. split; intros H; apply prefix_split in H;
      destruct H as [rest ->]; cbn; now destruct (split_head _ rest). }
  intros H.
  assert (Hmine : (condition = "No-Stim" \/ condition = "Stim")
                  /\ ((group = "PD" /\ String.prefix "PD" subject = true)
                      \/ (group = "Control" /\ String.prefix "CO" subject = true))).
  { destruct (String.prefix "PD" c) eqn:Epd;
      [| destruct (String.prefix "CO" c) eqn:Eco; [| discriminate]];
      (destruct (contains "NoStim" c);
       [| destruct (contains "Stim" c); [| discriminate]]);
      injection H as <- <- <-;
      (split; [auto |]);
      [left | left | right | right];
      (split; [reflexivity | now apply Hgen]). }
  destruct Hmine as [Hc Hg]. split; [exact Hc |]. split; [exact Hg |].
  intros col' subject' condition' Hpd H'.
  destruct Hg as [[_ Hp] | [Hctl _]]; [| congruence].
  assert (Hco : String.prefix "CO" subject' = true).
  { set (c' := strip_noise col') in H'.
    destruct (String.prefix "PD" c') eqn:Epd;
      [| destruct (String.prefix "CO" c') eqn:Eco; [| discriminate]];
      (destruct (contains "NoStim" c');
       [| destruct (contains "Stim" c'); [| discriminate]]);
      inversion H'; subst; now apply Hgen. }
  intros ->. apply prefix_split in Hp. destruct Hp as [rest ->].
  discriminate Hco.
Qed.

Lemma contains_NoStim_Stim (c : string) :
  contains "NoStim" c = true -> contains "Stim" c = true.
Proof.
  induction c as [| a c IH]; [discriminate |].
  cbn [contains]. intros H. apply orb_true_iff in H. destruct H as [H | H].
  - apply prefix_split in H. destruct H as [rest E].
    cbn in E. injection E as -> ->. cbn. now destruct rest.
  - rewrite (IH H). apply orb_true_r.
Qed.

(** X3.  Every name that contains "NoStim" also contains "Stim", so the
    order of the two tests of lines 57-60 decides: such a column is always
    read as "No-Stim", and a column is read as "Stim" only when "NoStim"
    does not occur in its stripped name. *)
Theorem parse_column_no_stim_first (col subject group condition : string) :
  parse_column col = Some (subject, group, condition) ->
  (contains "NoStim" (strip_noise col) = true ->
   contains "Stim" (strip_noise col) = true /\ condition = "No-Stim")
  /\ (condition = "Stim" <-> contains "NoStim" (strip_noise col) = false)
  /\ contains "Stim" (strip_noise col) = true.
Proof.
  unfold parse_column, condition_of. set (c := strip_noise col).
  destruct (group_of c); [| discriminate].
  destruct (contains "NoStim" c) eqn:En.
  - intros H. injection H as _ _ <-.
    pose proof (contains_NoStim_Stim c En) as Hs.
    repeat split; auto; discriminate.
  - destruct (contains "Stim" c) eqn:Es; [| discriminate].
    intros H. injection H as _ _ <-.
    repeat split; auto; discriminate.
Qed.

Lemma parse_column_range_witness :
  parse_column "PD1_Stim" = Some ("PD1", "PD", "Stim")
  /\ String.prefix "PD" "PD1" = true.
Proof.
  split; [reflexivity |].
  destruct (parse_column_range "PD1_Stim" "PD1" "PD" "Stim" eq_refl)
    as (_ & [[_ H] | [H _]] & _); [exact H | discriminate H].
Defined.

Lemma parse_column_no_stim_first_witness :
  parse_column "CO 2_No-Stim" = Some ("CO2", "Control", "No-Stim")
  /\ contains "Stim" (strip_noise "CO 2_No-Stim") = true.
Proof.
  split; [reflexivity |].
  exact (proj2 (proj2 (parse_column_no_stim_first "CO 2_No-Stim" "CO2" "Control"
                         "No-Stim" eq_refl))).
Defined.

(* ================================================================== *)
(** * The long-form table: what the record builder keeps *)
(* ================================================================== *)

Lemma records_of_row_app (param : string) (cols1 cols2 : list string)
      (cells1 cells2 : list float) :
  length cols1 = length cells1 ->
  records_of_row param (cols1 ++ cols2) (cells1 ++ cells2)
  = (records_of_row param cols1 cells1 ++ records_of_row param cols2 cells2)%list.
Proof.
  revert cells1. induction cols1 as [| col cols1 IH]; intros [| v cells1] H;
    try discriminate; cbn [app records_of_row]; [reflexivity |].
  injection H as H. rewrite (IH cells1 H).
  destruct (parse_column col) as [[[subject group] condition] |]; reflexivity.
Qed.

(** X4.  A column whose name does not parse contributes nothing and
    disturbs nothing: the records of a row are those of the same row
    without that column and its cell. *)
Theorem unparsable_column_is_skipped
        (param bad : string) (v : float)
        (cols1 cols2 : list string) (cells1 cells2 : list float) :
  parse_column bad = None ->
  length cols1 = length cells1 ->
  records_of_row param (cols1 ++ bad :: cols2) (cells1 ++ v :: cells2)
  = records_of_row param (cols1 ++ cols2) (cells1 ++ cells2).
Proof.
  intros Hbad Hlen.
  rewrite !records_of_row_app by exact Hlen.
  cbn [records_of_row]. now rewrite Hbad.
Qed.

Lemma records_of_row_parsed (param : string) (cols : list string)
      (cells : list float) (r : Measurement) :
  In r (records_of_row param cols cells) ->
  Parameter_ r = param
  /\ exists col, In col cols
                 /\ parse_column col = Some (Subject r, Group r, Condition r).
Proof.
  revert cells. induction cols as [| col cols IH]; intros [| v cells] H;
    cbn [records_of_row] in H; try contradiction.
  destruct (parse_column col) as [[[subject group] condition] |] eqn:E.
  - destruct H as [<- | H].
    + split; [reflexivity |]. exists col. split; [now left | exact E].
    + destruct (IH cells H) as (Hp & c & Hc & Hparse).
      split; [exact Hp |]. exists c. split; [now right | exact Hparse].
  - destruct (IH cells H) as (Hp & c & Hc & Hparse).
    split; [exact Hp |]. exists c. split; [now right | exact Hparse].
Qed.

Lemma parsed_group_condition (col subject group condition : string) :
  parse_column col = Some (subject, group, condition) ->
  (group = "PD" \/ group = "Control")
  /\ (condition = "No-Stim" \/ condition = "Stim").
Proof.
  unfold parse_column, group_of, condition_of. set (c := strip_noise col).
  destruct (String.prefix "PD" c);
    [| destruct (String.prefix "CO" c); [| discriminate]];
    (destruct (contains "NoStim" c);
     [| destruct (contains "Stim" c); [| discriminate]]);
    intros H; injection H as _ <- <-; auto.
Qed.

Lemma long_df_record (data_cols : list string) (rows : list (string * list float))
      (r : Measurement) :
  In r (build_long_df data_cols rows) ->
  In (Parameter_ r) (map fst rows)
  /\ (Group r = "PD" \/ Group r = "Control")
  /\ (Condition r = "No-Stim" \/ Condition r = "Stim")
  /\ exists col, In col data_cols
                 /\ parse_column col = Some (Subject r, Group r, Condition r).
Proof.
  unfold build_long_df. intros H. apply in_flat_map in H.
  destruct H as (row & Hrow & Hr).
  apply records_of_row_parsed in Hr. destruct Hr as (Hp & col & Hcol & Hparse).
  destruct (parsed_group_condition _ _ _ _ Hparse) as [Hg Hc].
  split; [rewrite Hp; now apply in_map |].
  split; [exact Hg |]. split; [exact Hc |]. now exists col.
Qed.

(** X5.  Every record of the long table comes from a row of the wide table
    and from a column that parses to its subject, group and condition; its
    group is "PD" or "Control" and its condition "No-Stim" or "Stim". *)
Theorem build_long_df_records_are_parsed
        (data_cols : list string) (rows : list (string * list float))
        (r : Measurement) :
  In r (build_long_df data_cols rows) ->
  In (Parameter_ r) (map fst rows)
  /\ (Group r = "PD" \/ Group r = "Control")
  /\ (Condition r = "No-Stim" \/ Condition r = "Stim")
  /\ exists col, In col data_cols
                 /\ parse_column col = Some (Subject r, Group r, Condition r).
Proof.
  intros H. pose proof (long_df_record data_cols rows r H) as (H1 & H2 & H3 & H4).
  repeat split; assumption.
Qed.

Lemma two_conditions_split (data : DataFrame) :
  (forall r, In r data -> Condition r = "No-Stim" \/ Condition r = "Stim") ->
  length data
  = length (values_of_condition "No-Stim" data)
    + length (values_of_condition "Stim" data).
Proof.
  unfold values_of_condition. rewrite !length_map.
  induction data as [| r data IH]; intros H; [reflexivity |].
  cbn [filter length].
  rewrite IH by (intros x Hx; apply H; now right).
  destruct (H r (or_introl eq_refl)) as [E | E]; rewrite E; cbn; lia.
Qed.

(** X6.  In a table the record builder made, every row of a (parameter,
    group) cell is a baseline value or an intervention value: the size of
    the cell is the sum of the lengths of the two arrays [paired_stats] and
    the locomotion loop read, so a cell is empty exactly when both arrays
    are. *)
Theorem cell_rows_are_the_two_arms
        (data_cols : list string) (rows : list (string * list float))
        (param group : string) :
  let subset := select_cell param group (build_long_df data_cols rows) in
  length subset
  = length (values_of_condition "No-Stim" subset)
    + length (values_of_condition "Stim" subset)
  /\ (subset = [] <-> values_of_condition "No-Stim" subset = []
                      /\ values_of_condition "Stim" subset = []).
Proof.
  intros subset.
  assert (Hlen : length subset
                 = length (values_of_condition "No-Stim" subset)
                   + length (values_of_condition "Stim" subset)).
  { apply two_conditions_split. intros r Hr.
    unfold subset, select_cell in Hr. apply filter_In in Hr.
    destruct Hr as [Hr _]. now apply long_df_record in Hr. }
  split; [exact Hlen |]. split.
  - intros E. rewrite E. split; reflexivity.
  - intros [E1 E2]. rewrite E1, E2 in Hlen. cbn in Hlen.
    now apply length_zero_iff_nil.
Qed.

Lemma records_of_row_nonempty (param col : string) (cols : list string)
      (cells : list float) :
  In col cols -> parse_column col <> None -> length cells = length cols ->
  records_of_row param cols cells <> [].
Proof.
  revert cells. induction cols as [| c cols IH]; intros [| v cells] Hin Hp Hlen;
    try contradiction; try discriminate.
  cbn [records_of_row]. injection Hlen as Hlen.
  destruct (parse_column c) as [[[subject group] condition] |] eqn:E;
    [discriminate |].
  destruct Hin as [-> | Hin]; [congruence |]. now apply IH.
Qed.

(** X7.  The check of lines 89-90: when no column name parses the script
    stops with RuntimeError, however many rows the table has; when a
    column parses and some row has a cell for every column, the long table
    is loaded and is not empty. *)
Theorem long_df_empty_is_fatal
        (data_cols : list string) (rows : list (string * list float)) :
  ((forall col, In col data_cols -> parse_column col = None) ->
   checked_long_df data_cols rows
   = RuntimeError "No data parsed. Check column names in EPM.xlsx")
  /\ (forall row col,
         In row rows -> length (snd row) = length data_cols ->
         In col data_cols -> parse_column col <> None ->
         checked_long_df data_cols rows = Loaded (build_long_df data_cols rows)
         /\ build_long_df data_cols rows <> []).
Proof.
  split.
  - intros Hnone. unfold checked_long_df.
    destruct (build_long_df data_cols rows) as [| r rest] eqn:E; [reflexivity |].
    assert (Hr : In r (build_long_df data_cols rows)) by (rewrite E; now left).
    apply long_df_record in Hr. destruct Hr as (_ & _ & _ & col & Hcol & Hp).
    rewrite (Hnone col Hcol) in Hp. discriminate.
  - intros row col Hrow Hlen Hcol Hp.
    assert (Hne : build_long_df data_cols rows <> []).
    { unfold build_long_df. intros E.
      destruct (records_of_row (fst row) data_cols (snd row)) as [| r rest] eqn:Er.
      - now apply (records_of_row_nonempty (fst row) col data_cols (snd row)).
      - assert (Hin : In r (flat_map (fun row0 => records_of_row (fst row0) data_cols
                                                           (snd row0)) rows)).
        { apply in_flat_map. exists row. split; [exact Hrow |].
          rewrite Er. now left. }
        rewrite E in Hin. contradiction. }
    split; [| exact Hne]. unfold checked_long_df.
    destruct (build_long_df data_cols rows); [congruence | reflexivity].
Qed.

Lemma unparsable_column_is_skipped_witness :
  parse_column "XYZ_99" = None
  /\ records_of_row "Time_OpenArms" ["PD1_NoStim"; "XYZ_99"; "PD1_Stim"]
                    [1; 7; 2]%float
     = records_of_row "Time_OpenArms" ["PD1_NoStim"; "PD1_Stim"] [1; 2]%float.
Proof.
  split; [reflexivity |].
  exact (unparsable_column_is_skipped "Time_OpenArms" "XYZ_99" 7%float
           ["PD1_NoStim"] ["PD1_Stim"] [1%float] [2%float] eq_refl eq_refl).
Defined.

Lemma build_long_df_records_are_parsed_witness :
  In (mkMeasurement "Time_OpenArms" "PD" "PD" "No-Stim" 1%float)
     (build_long_df sample_underscore_columns
                    [("Time_OpenArms", [1; 2; 3; 4; 5]%float)])
  /\ In "Time_OpenArms" (map fst [("Time_OpenArms", [1; 2; 3; 4; 5]%float)]).
Proof.
  split; [left; reflexivity |].
  exact (proj1 (build_long_df_records_are_parsed
                  sample_underscore_columns
                  [("Time_OpenArms", [1; 2; 3; 4; 5]%float)]
                  (mkMeasurement "Time_OpenArms" "PD" "PD" "No-Stim" 1%float)
                  (or_introl eq_refl))).
Defined.

Lemma long_df_empty_is_fatal_witness :
  (forall col, In col ["XYZ_99"; "Notes"] -> parse_column col = None)
  /\ checked_long_df ["XYZ_99"; "Notes"] [("Time_OpenArms", [1; 2]%float)]
     = RuntimeError "No data parsed. Check column names in EPM.xlsx".
Proof.
  assert (H : forall col, In col ["XYZ_99"; "Notes"] -> parse_column col = None).
  { intros col [<- | [<- | []]]; reflexivity. }
  split; [exact H |].
  exact (proj1 (long_df_empty_is_fatal ["XYZ_99"; "Notes"]
                  [("Time_OpenArms", [1; 2]%float)]) H).
Defined.

(* ================================================================== *)
(** * The statistics loop: when it aborts, what it collects *)
(* ================================================================== *)

Lemma for_each_raises_inv {K R : Type} (body : K -> outcome (list R))
      (keys : list K) (e : exn) :
  for_each body keys = Raises e -> exists k, In k keys /\ body k = Raises e.
Proof.
  induction keys as [| k keys IH]; cbn [for_each]; [discriminate |].
  destruct (body k) as [rows | e'] eqn:E; cbn [bind].
  - destruct (for_each body keys) as [rest | e''] eqn:F; cbn [bind];
      [discriminate |].
    intros H. injection H as ->. destruct (IH eq_refl) as (k' & Hk & Hb).
    exists k'. split; [now right | exact Hb].
  - intros H. injection H as ->. exists k. split; [now left | exact E].
Qed.

Lemma for_each_raises {K R : Type} (body : K -> outcome (list R))
      (keys : list K) (e : exn) :
  (forall k e', In k keys -> body k = Raises e' -> e' = e) ->
  (exists k, In k keys /\ body k = Raises e) ->
  for_each body keys = Raises e.
Proof.
  intros Honly (k & Hk & Hb).
  destruct (for_each body keys) as [rows | e'] eqn:F.
  - exfalso. revert rows F. induction keys as [| k0 keys IH]; intros rows F;
      [contradiction |].
    cbn [for_each] in F. destruct (body k0) as [r0 | e0] eqn:E0; cbn [bind] in F;
      [| discriminate].
    destruct (for_each body keys) as [rest | e1] eqn:F1; cbn [bind] in F;
      [| discriminate].
    destruct Hk as [-> | Hk]; [congruence |].
    apply (IH (fun k1 e1 H1 => Honly k1 e1 (or_intror H1)) Hk rest eq_refl).
  - apply for_each_raises_inv in F. destruct F as (k' & Hk' & Hb').
    now rewrite (Honly k' e' Hk' Hb').
Qed.

(** The rows a returning loop collected, body by body. *)
Lemma for_each_returns_inv {K R : Type} (body : K -> outcome (list R))
      (keys : list K) (rows : list R) :
  for_each body keys = Returns rows ->
  exists parts, Forall2 (fun k part => body k = Returns part) keys parts
                /\ rows = concat parts.
Proof.
  revert rows. induction keys as [| k keys IH]; intros rows; cbn [for_each].
  - intros H. injection H as <-. exists []. split; constructor.
  - destruct (body k) as [r0 | e0] eqn:E0; cbn [bind]; [| discriminate].
    destruct (for_each body keys) as [rest | e1] eqn:F1; cbn [bind];
      [| discriminate].
    intros H. injection H as <-.
    destruct (IH rest eq_refl) as (parts & HF & ->).
    exists (r0 :: parts). split; [now constructor | reflexivity].
Qed.

Lemma unique_aux_NoDup (l seen : list string) :
  NoDup (unique_aux seen l)
  /\ forall x, In x (unique_aux seen l) -> ~ In x seen.
Proof.
  revert seen. induction l as [| y l IH]; intros seen; cbn [unique_aux].
  - split; [constructor | intros x []].
  - destruct (existsb (String.eqb y) seen) eqn:E; [apply IH |].
    assert (Hy : ~ In y seen).
    { intros Hin.
      assert (Ht : existsb (String.eqb y) seen = true).
      { apply existsb_exists. exists y. split; [exact Hin | apply String.eqb_refl]. }
      congruence. }
    destruct (IH (y :: seen)) as [Hnd Hout]. split.
    + constructor; [| exact Hnd].
      intros Hin. apply (Hout y Hin). now left.
    + intros x [<- | Hx]; [exact Hy |].
      intros Hs. apply (Hout x Hx). now right.
Qed.

Lemma cells_of_NoDup (long_df : DataFrame) : NoDup (cells_of long_df).
Proof.
  unfold cells_of.
  pose proof (proj1 (unique_aux_NoDup (map Parameter_ long_df) [])) as Hnd.
  fold (unique (map Parameter_ long_df)) in Hnd.
  induction Hnd as [| p ps Hp Hnd IH]; cbn [flat_map app]; [constructor |].
  assert (Hout : forall g, ~ In (p, g)
                              (flat_map (fun param => [(param, "PD"); (param, "Control")])
                                        ps)).
  { intros g Hin. apply in_flat_map in Hin. destruct Hin as (p' & Hp' & Hin).
    destruct Hin as [E | [E | []]]; injection E as -> _; contradiction. }
  constructor; [| constructor; [apply Hout | exact IH]].
  intros [E | Hin]; [discriminate E | now apply Hout in Hin].
Qed.

Lemma cells_of_In (long_df : DataFrame) (param group : string) :
  In (param, group) (cells_of long_df)
  <-> In param (map Parameter_ long_df) /\ (group = "PD" \/ group = "Control").
Proof.
  unfold cells_of. rewrite in_flat_map. split.
  - intros (p & Hp & Hin). apply unique_aux_sound in Hp.
    destruct Hin as [E | [E | []]]; injection E as <- <-; auto.
  - intros [Hp Hg]. exists param. split; [now apply unique_complete |].
    destruct Hg as [-> | ->]; [now left | right; now left].
Qed.

Section StatisticsLoopFacts.

Context {lib : StatsLib}.

Lemma paired_stats_unbalanced (data : DataFrame) :
  unbalanced data -> paired_stats data = Raises ValueError.
Proof.
  intros (Hoff & Hon & Hne). unfold paired_stats.
  assert (H1 : Nat.ltb (length (values_of_condition "No-Stim" data)) 3 = false)
    by (apply Nat.ltb_ge; lia).
  assert (H2 : Nat.ltb (length (values_of_condition "Stim" data)) 3 = false)
    by (apply Nat.ltb_ge; lia).
  rewrite H1, H2. cbn [orb].
  rewrite np_sub_unequal_raises by (auto; congruence). reflexivity.
Qed.

Lemma paired_stats_raises_inv (data : DataFrame) (e : exn) :
  paired_stats data = Raises e -> e = ValueError /\ unbalanced data.
Proof.
  intros H.
  destruct (Nat.lt_ge_cases (length (values_of_condition "No-Stim" data)) 3)
    as [Hoff | Hoff];
    [rewrite guard_skips_small_cell in H by (now left); discriminate |].
  destruct (Nat.lt_ge_cases (length (values_of_condition "Stim" data)) 3)
    as [Hon | Hon];
    [rewrite guard_skips_small_cell in H by (now right); discriminate |].
  destruct (Nat.eq_dec (length (values_of_condition "No-Stim" data))
                       (length (values_of_condition "Stim" data))) as [E | Hne];
    [rewrite paired_stats_tested in H by assumption; discriminate |].
  assert (Hu : unbalanced data) by (repeat split; assumption).
  rewrite (paired_stats_unbalanced data Hu) in H. injection H as <-.
  split; [reflexivity | exact Hu].
Qed.

Lemma stats_cell_raises_iff (long_df : DataFrame) (param group : string) (e : exn) :
  stats_cell long_df param group = Raises e
  <-> e = ValueError /\ unbalanced (select_cell param group long_df).
Proof.
  unfold stats_cell. split.
  - destruct (paired_stats (select_cell param group long_df)) as [[t |] | e'] eqn:E;
      cbn [bind]; try discriminate.
    intros H. injection H as <-. now apply paired_stats_raises_inv.
  - intros [-> Hu]. now rewrite (paired_stats_unbalanced _ Hu).
Qed.

Lemma unbalanced_cell_is_visited (long_df : DataFrame) (param group : string) :
  (group = "PD" \/ group = "Control") ->
  unbalanced (select_cell param group long_df) ->
  In (param, group) (cells_of long_df).
Proof.
  intros Hg (Hoff & _ & _). apply cells_of_In. split; [| exact Hg].
  unfold values_of_condition in Hoff. rewrite length_map in Hoff.
  destruct (filter _ (select_cell param group long_df)) as [| r rest] eqn:E;
    [cbn in Hoff; lia |].
  assert (Hr : In r (select_cell param group long_df)).
  { assert (H : In r (r :: rest)) by now left.
    rewrite <- E in H. now apply filter_In in H. }
  unfold select_cell in Hr. apply filter_In in Hr. destruct Hr as [Hr Hb].
  apply andb_true_iff in Hb. destruct Hb as [Hp _].
  apply String.eqb_eq in Hp. rewrite <- Hp. now apply in_map.
Qed.

(** X8.  The statistics loop has no handler around [paired_stats]: it
    raises, and produces no results table at all, exactly when some PD or
    Control cell has two arrays of three values or more with different
    lengths; the exception is then ValueError. *)
Theorem results_abort_on_unbalanced_cell (long_df : DataFrame) (e : exn) :
  results long_df = Raises e
  <-> e = ValueError
      /\ exists param group,
           (group = "PD" \/ group = "Control")
           /\ unbalanced (select_cell param group long_df).
Proof.
  unfold results. fold (cells_of long_df). split.
  - intros H. apply for_each_raises_inv in H.
    destruct H as ([param group] & Hk & Hb). cbn [fst snd] in Hb.
    apply stats_cell_raises_iff in Hb. destruct Hb as [-> Hu].
    split; [reflexivity |]. exists param, group. split; [| exact Hu].
    now apply cells_of_In in Hk.
  - intros (-> & param & group & Hg & Hu).
    apply for_each_raises.
    + intros [p g] e' _ Hb. cbn [fst snd] in Hb.
      now apply stats_cell_raises_iff in Hb.
    + exists (param, group). split; [now apply unbalanced_cell_is_visited |].
      cbn [fst snd]. now apply stats_cell_raises_iff.
Qed.

Lemma stats_cell_rows (long_df : DataFrame) (param group : string)
      (rows : list ResultRow) :
  stats_cell long_df param group = Returns rows ->
  forall r, In r rows ->
    rows = [r]
    /\ res_Parameter r = param /\ res_Group r = group
    /\ is_nan (p_holm r) = true
    /\ exists t, paired_stats (select_cell param group long_df) = Returns (Some t)
                 /\ res_Test r = tt_test t /\ res_Statistic r = tt_stat t
                 /\ p_raw r = tt_p t /\ Cohens_dz r = tt_dz t.
Proof.
  unfold stats_cell.
  destruct (paired_stats (select_cell param group long_df)) as [[t |] | e] eqn:E;
    cbn [bind]; try discriminate; intros H; injection H as <-; intros r Hr;
    [| contradiction].
  destruct Hr as [<- | []]. repeat split. exists t. repeat split.
Qed.

Lemma collected_rows (long_df : DataFrame) (keys : list (string * string))
      (parts : list (list ResultRow)) :
  Forall2 (fun k part => stats_cell long_df (fst k) (snd k) = Returns part)
          keys parts ->
  (forall r, In r (concat parts) ->
             In (res_Parameter r, res_Group r) keys
             /\ is_nan (p_holm r) = true
             /\ exists t, paired_stats (select_cell (res_Parameter r) (res_Group r)
                                                    long_df) = Returns (Some t)
                          /\ res_Test r = tt_test t /\ res_Statistic r = tt_stat t
                          /\ p_raw r = tt_p t /\ Cohens_dz r = tt_dz t)
  /\ (NoDup keys ->
      NoDup (map (fun r => (res_Parameter r, res_Group r)) (concat parts))).
Proof.
  induction 1 as [| [p g] part keys parts Hb HF [IHin IHnd]]; cbn [concat].
  - split; [intros r [] | constructor].
  - cbn [fst snd] in Hb. split.
    + intros r Hr. apply in_app_or in Hr. destruct Hr as [Hr | Hr].
      * destruct (stats_cell_rows _ _ _ _ Hb r Hr) as (_ & <- & <- & Hn & Ht).
        split; [now left |]. split; assumption.
      * destruct (IHin r Hr) as (Hk & Hrest). split; [now right | exact Hrest].
    + intros Hnd. inversion Hnd as [| ? ? Hout Hnd']; subst.
      rewrite map_app. destruct part as [| r part].
      * cbn. now apply IHnd.
      * destruct (stats_cell_rows _ _ _ _ Hb r (or_introl eq_refl))
          as (E & Hp & Hg & _).
        injection E as ->. cbn [map app]. constructor; [| now apply IHnd].
        rewrite Hp, Hg. intros Hin. apply in_map_iff in Hin.
        destruct Hin as (r' & Hk & Hr'). apply IHin in Hr'.
        destruct Hr' as (Hk' & _). rewrite Hk in Hk'. contradiction.
Qed.

(** X9.  When no cell is unbalanced the statistics loop returns.  Every
    row it returns is the result of [paired_stats] on the cell of the
    row's own parameter and group, the group is "PD" or "Control", the
    parameter occurs in the long table, [p_holm] is still NaN, and no
    (parameter, group) pair has two rows. *)
Theorem results_one_row_per_tested_cell (long_df : DataFrame) :
  (forall param group, ~ unbalanced (select_cell param group long_df)) ->
  exists rows : list ResultRow,
    results long_df = Returns rows
    /\ NoDup (map (fun r => (res_Parameter r, res_Group r)) rows)
    /\ forall r, In r rows ->
         In (res_Parameter r) (map Parameter_ long_df)
         /\ (res_Group r = "PD" \/ res_Group r = "Control")
         /\ is_nan (p_holm r) = true
         /\ exists t, paired_stats (select_cell (res_Parameter r) (res_Group r)
                                                long_df) = Returns (Some t)
                      /\ res_Test r = tt_test t /\ res_Statistic r = tt_stat t
                      /\ p_raw r = tt_p t /\ Cohens_dz r = tt_dz t.
Proof.
  intros Hbal. unfold results. fold (cells_of long_df).
  destruct (for_each _ (cells_of long_df)) as [rows | e] eqn:F.
  - exists rows. split; [reflexivity |].
    apply for_each_returns_inv in F. destruct F as (parts & HF & ->).
    destruct (collected_rows long_df _ _ HF) as [Hin Hnd].
    split; [apply Hnd, cells_of_NoDup |].
    intros r Hr. destruct (Hin r Hr) as (Hk & Hn & Ht).
    apply cells_of_In in Hk. destruct Hk as [Hp Hg].
    repeat split; assumption.
  - exfalso. apply for_each_raises_inv in F.
    destruct F as ([p g] & _ & Hb). cbn [fst snd] in Hb.
    apply stats_cell_raises_iff in Hb. destruct Hb as [_ Hu].
    exact (Hbal p g Hu).
Qed.

End StatisticsLoopFacts.

Lemma results_one_row_per_tested_cell_witness :
  (forall param group, ~ unbalanced (select_cell param group sample_five))
  /\ exists rows : list ResultRow,
       @results (stand_in 0.5) sample_five = Returns rows
       /\ NoDup (map (fun r => (res_Parameter r, res_Group r)) rows).
Proof.
  assert (H : forall param group, ~ unbalanced (select_cell param group sample_five)).
  { intros param group (H1 & H2 & H3).
    unfold select_cell, sample_five, values_of_condition in *.
    cbn -[String.eqb] in *.
    destruct (String.eqb "Time_OpenArms" param), (String.eqb "PD" group);
      cbn in *; lia. }
  split; [exact H |].
  destruct (@results_one_row_per_tested_cell (stand_in 0.5) sample_five H)
    as (rows & Hr & Hnd & _).
  exists rows. split; assumption.
Defined.

(* ================================================================== *)
(** * The Holm loop: what it changes and what it leaves *)
(* ================================================================== *)

Lemma set_p_holm_frame (grp : string) (rs : list ResultRow) :
  forall (p_corr : list float) (rs' : list ResultRow),
    set_p_holm grp p_corr rs = Returns rs' ->
    map without_p_holm rs' = map without_p_holm rs.
Proof.
  induction rs as [| r rest IH]; intros p_corr rs'; cbn [set_p_holm].
  - destruct p_corr; [| discriminate]. intros H. now injection H as <-.
  - destruct (in_group grp r).
    + destruct p_corr as [| p ps]; [discriminate |].
      destruct (set_p_holm grp ps rest) as [rest' |] eqn:E; cbn [bind];
        [| discriminate].
      intros H. injection H as <-. cbn [map]. now rewrite (IH ps rest' E).
    + destruct (set_p_holm grp p_corr rest) as [rest' |] eqn:E; cbn [bind];
        [| discriminate].
      intros H. injection H as <-. cbn [map]. now rewrite (IH p_corr rest' E).
Qed.

Lemma holm_groups_frame (grps : list string) :
  forall rs out : list ResultRow,
    holm_groups grps rs = Returns out ->
    map without_p_holm out = map without_p_holm rs.
Proof.
  induction grps as [| grp grps IH]; intros rs out; cbn [holm_groups].
  - intros H. now injection H as <-.
  - unfold holm_group.
    destruct (multipletests_holm float_ops (pvals_of grp rs)) as [p_corr |];
      cbn [bind]; [| discriminate].
    destruct (set_p_holm grp p_corr rs) as [rs1 |] eqn:E; cbn [bind];
      [| discriminate].
    intros H. rewrite (IH rs1 out H). exact (set_p_holm_frame grp rs p_corr rs1 E).
Qed.

(** X10.  The Holm loop returns on every results table, the empty one
    included; it keeps every row in its place and changes no column other
    than [p_holm]. *)
Theorem holm_correction_touches_only_p_holm (rs : list ResultRow) :
  exists out : list ResultRow,
    holm_correction rs = Returns out
    /\ length out = length rs
    /\ map without_p_holm out = map without_p_holm rs
    /\ (rs = [] -> out = []).
Proof.
  destruct (holm_correction_spec rs) as (out & H & _).
  pose proof (holm_groups_frame _ _ _ H) as Hframe.
  assert (Hlen : length out = length rs).
  { rewrite <- (length_map without_p_holm out), Hframe. apply length_map. }
  exists out. repeat split; auto.
  intros ->. now apply length_zero_iff_nil.
Qed.

Lemma holm_values_are_step_values {P : Type} (ops : pnum P) (pvals : list P) (c : P) :
  In c (holm ops pvals) -> In c (corrected_in_step_order ops pvals).
Proof.
  intros Hc. apply (In_nth _ _ (p_one ops)) in Hc. destruct Hc as (i & Hi & <-).
  rewrite holm_length in Hi.
  rewrite <- (take_holm ops pvals). unfold take.
  apply in_map_iff. exists i. split; [reflexivity |].
  now apply argsort_in_range.
Qed.

Lemma holm_float_capped (pvals : list float) (c : float) :
  In c (holm float_ops pvals) -> (1 <? c)%float = false.
Proof.
  intros Hc. apply holm_values_are_step_values in Hc.
  unfold corrected_in_step_order, cap_at_one in Hc.
  apply in_map_iff in Hc. destruct Hc as (p & <- & _).
  cbn [p_gt_one p_one float_ops].
  destruct (1 <? p)%float eqn:E; [reflexivity | exact E].
Qed.

(** X11.  The Holm loop returns on every results table, and the [p_holm]
    it leaves in a row is one of the Holm-corrected values of the row's own
    group and is never above 1.  When the raw p-values are numbers between
    0 and 1 and the table has fewer than 2^53 rows, no row keeps the NaN of
    line 150 or gets another one: every [p_holm] is a number, at least the
    row's [p_raw] and at most 1. *)
Theorem holm_correction_fills_every_row (rs : list ResultRow) :
  exists out : list ResultRow,
    holm_correction rs = Returns out
    /\ (forall r, In r out ->
          In (p_holm r) (holm float_ops (pvals_of (res_Group r) rs))
          /\ (1 <? p_holm r)%float = false)
    /\ ((forall r, In r rs -> is_probability (p_raw r)) ->
        (Z.of_nat (length rs) < 2 ^ 53)%Z ->
        forall r, In r out ->
          is_nan (p_holm r) = false
          /\ fle (p_raw r) (p_holm r)
          /\ fle (p_holm r) 1).
Proof.
  destruct (holm_correction_spec rs) as (out & H & _ & _ & Hh).
  exists out. split; [exact H |]. split.
  - intros r Hr.
    assert (Hin : In (p_holm r) (holm float_ops (pvals_of (res_Group r) rs))).
    { rewrite <- (Hh (res_Group r)). apply in_map. apply filter_In.
      split; [exact Hr |]. unfold in_group. apply String.eqb_refl. }
    split; [exact Hin | now apply (holm_float_capped _ _ Hin)].
  - intros Hrange Hbound r Hr.
    destruct (holm_correction_group rs out (res_Group r) H) as (Hg & _ & Hp).
    destruct (holm_correction_group_range rs out (res_Group r) Hp Hrange Hbound)
      as [Hr' Hb].
    destruct (holm_float_order _ Hr' Hb) as (Hge & Hcap & _).
    rewrite <- Hg in Hge, Hcap.
    assert (Hrow : In r (filter (in_group (res_Group r)) out)).
    { apply filter_In. split; [exact Hr |]. unfold in_group. apply String.eqb_refl. }
    assert (H1 : fle (p_raw r) (p_holm r))
      by (apply (Forall2_map_same fle p_raw p_holm _ Hge); exact Hrow).
    assert (H2 : fle (p_holm r) 1).
    { rewrite Forall_forall in Hcap. apply Hcap. now apply in_map. }
    split; [now destruct (fle_not_nan _ _ H2) | now split].
Qed.

Lemma holm_correction_fills_every_row_witness :
  (forall r, In r sample_results -> is_probability (p_raw r))
  /\ (Z.of_nat (length sample_results) < 2 ^ 53)%Z
  /\ exists out : list ResultRow,
       holm_correction sample_results = Returns out
       /\ forall r, In r out ->
            is_nan (p_holm r) = false
            /\ fle (p_raw r) (p_holm r)
            /\ fle (p_holm r) 1.
Proof.
  assert (Hr : forall r, In r sample_results -> is_probability (p_raw r)).
  { intros r [<- | [<- | [<- | [<- | [<- | []]]]]]; split; reflexivity. }
  assert (Hb : (Z.of_nat (length sample_results) < 2 ^ 53)%Z) by reflexivity.
  split; [exact Hr |]. split; [exact Hb |].
  destruct (holm_correction_fills_every_row sample_results)
    as (out & H & _ & Hnum).
  exists out. split; [exact H | exact (Hnum Hr Hb)].
Defined.

Section TablesS1S2.

Context {lib : StatsLib}.

Lemma two_groups_split (rows : list ResultRow) :
  (forall r, In r rows -> res_Group r = "PD" \/ res_Group r = "Control") ->
  length (table_S1 rows) + length (table_S2 rows) = length rows.
Proof.
  unfold table_S1, table_S2.
  induction rows as [| r rows IH]; intros H; [reflexivity |].
  specialize (IH (fun x Hx => H x (or_intror Hx))).
  assert (E : (in_group "PD" r = true /\ in_group "Control" r = false)
              \/ (in_group "PD" r = false /\ in_group "Control" r = true)).
  { unfold in_group. destruct (H r (or_introl eq_refl)) as [E | E]; rewrite E;
      [left | right]; split; reflexivity. }
  cbn [filter]. destruct E as [[E1 E2] | [E1 E2]]; rewrite E1, E2;
    cbn [length]; lia.
Qed.

(** X12.  Lines 120-170 together, on a table without unbalanced cells:
    the tests and the Holm loop return, every result row goes to exactly
    one of the tables S1 (PD) and S2 (Control), and in each table the
    [p_holm] column is the Holm correction of that table's own [p_raw]
    column. *)
Theorem tables_S1_S2_are_separate_families (long_df : DataFrame) :
  (forall param group, ~ unbalanced (select_cell param group long_df)) ->
  exists out : list ResultRow,
    results_df long_df = Returns out
    /\ length (table_S1 out) + length (table_S2 out) = length out
    /\ map p_holm (table_S1 out) = holm float_ops (map p_raw (table_S1 out))
    /\ map p_holm (table_S2 out) = holm float_ops (map p_raw (table_S2 out)).
Proof.
  intros Hbal. unfold results_df.
  destruct (results long_df) as [rows | e] eqn:R.
  - cbn [bind].
    destruct (holm_correction_spec rows) as (out & H & Hg & Hp & Hh).
    exists out. split; [exact H |].
    assert (Hgroups : forall r, In r out ->
                                res_Group r = "PD" \/ res_Group r = "Control").
    { intros r Hr.
      assert (Hin : In (res_Group r) (map res_Group rows))
        by (rewrite <- Hg; now apply in_map).
      apply in_map_iff in Hin. destruct Hin as (r0 & <- & Hr0).
      unfold results in R. fold (cells_of long_df) in R.
      apply for_each_returns_inv in R. destruct R as (parts & HF & ->).
      destruct (proj1 (collected_rows long_df _ _ HF) r0 Hr0) as (Hk & _).
      now apply cells_of_In in Hk. }
    split; [now apply two_groups_split |].
    unfold table_S1, table_S2. rewrite !Hh.
    split; f_equal; apply (pvals_of_ext _ rows out); congruence.
  - exfalso. unfold results in R. fold (cells_of long_df) in R.
    apply for_each_raises_inv in R.
    destruct R as ([p g] & _ & Hb). cbn [fst snd] in Hb.
    apply stats_cell_raises_iff in Hb. destruct Hb as [_ Hu].
    exact (Hbal p g Hu).
Qed.

End TablesS1S2.

Lemma tables_S1_S2_are_separate_families_witness :
  (forall param group, ~ unbalanced (select_cell param group sample_five))
  /\ exists out : list ResultRow,
       @results_df (stand_in 0.5) sample_five = Returns out
       /\ map p_holm (table_S1 out) = holm float_ops (map p_raw (table_S1 out)).
Proof.
  assert (H : forall param group, ~ unbalanced (select_cell param group sample_five)).
  { intros param group (H1 & H2 & H3).
    unfold select_cell, sample_five, values_of_condition in *.
    cbn -[String.eqb] in *.
    destruct (String.eqb "Time_OpenArms" param), (String.eqb "PD" group);
      cbn in *; lia. }
  split; [exact H |].
  destruct (@tables_S1_S2_are_separate_families (stand_in 0.5) sample_five H)
    as (out & Hr & _ & Hs1 & _).
  exists out. split; assumption.
Defined.

(* ================================================================== *)
(** * The locomotion loop: when it aborts, what it collects *)
(* ================================================================== *)

Lemma for_each_flat_map {K R : Type} (body : K -> outcome (list R))
      (f : K -> list R) (keys : list K) :
  (forall k, In k keys -> body k = Returns (f k)) ->
  for_each body keys = Returns (flat_map f keys).
Proof.
  induction keys as [| k keys IH]; intros H; cbn [for_each flat_map];
    [reflexivity |].
  rewrite (H k (or_introl eq_refl)). cbn [bind].
  rewrite IH by (intros k' Hk'; apply H; now right). reflexivity.
Qed.

Section LocomotionLoopFacts.

Context {lib : StatsLib}.

(** The paired t-test and the subtraction accept and refuse the same pairs
    of lengths: both follow the broadcasting rule. *)
Lemma broadcast_cases (a b : Np.array) :
  ((length a = length b \/ length a = 1 \/ length b = 1)
   /\ (exists sp, ttest_rel a b = Returns sp)
   /\ (exists d, Np.sub a b = Returns d))
  \/ ((length a <> length b /\ length a <> 1 /\ length b <> 1)
      /\ ttest_rel a b = Raises ValueError
      /\ Np.sub a b = Raises ValueError).
Proof.
  unfold ttest_rel, Np.sub.
  destruct (Nat.eqb (length a) (length b)) eqn:L.
  - apply Nat.eqb_eq in L. left.
    split; [now left | split; eexists; reflexivity].
  - apply Nat.eqb_neq in L.
    destruct a as [| x [| x' a]]; destruct b as [| y [| y' b]]; cbn in L |- *;
      try (left; split; [lia | split; eexists; reflexivity]; fail);
      right; repeat split; try reflexivity; lia.
Qed.

Lemma locomotion_cell_raises_iff (long_df : DataFrame) (param : string) (e : exn) :
  let subset := select_cell param "PD" long_df in
  let off := values_of_condition "No-Stim" subset in
  let on := values_of_condition "Stim" subset in
  locomotion_cell long_df param = Raises e
  <-> e = ValueError
      /\ length off <> length on /\ length off <> 1 /\ length on <> 1.
Proof.
  intros subset off on. unfold locomotion_cell. fold subset. fold off on.
  destruct subset as [| r rest] eqn:E.
  - split; [discriminate |]. intros (_ & H & _). now contradiction H.
  - destruct (broadcast_cases on off) as [(Hb & Ht & Hs) | (Hb & Ht & Hs)].
    + destruct Ht as [sp Ht]. destruct Hs as [d Hs].
      rewrite Ht. cbn [bind]. destruct sp as [stat p].
      rewrite Hs. cbn [bind].
      split; [discriminate |]. intros (_ & H1 & H2 & H3). exfalso.
      destruct Hb as [Hb | [Hb | Hb]]; congruence.
    + rewrite Ht. cbn [bind]. split.
      * intros H. inversion H; subst. repeat split; intuition congruence.
      * now intros [-> _].
Qed.

(** X13.  The locomotion loop raises, and writes no table S4, exactly
    when one of its two parameters has PD arms of different lengths neither
    of which is one; the exception is ValueError.  There is no three-value
    threshold here, and an arm of a single value is stretched to the length
    of the other arm instead of being refused. *)
Theorem locomotion_results_abort_on_unequal_arms (long_df : DataFrame) (e : exn) :
  locomotion_results long_df = Raises e
  <-> e = ValueError
      /\ exists param,
           In param LOCOMOTION_PARAMS
           /\ length (values_of_condition "No-Stim" (select_cell param "PD" long_df))
              <> length (values_of_condition "Stim" (select_cell param "PD" long_df))
           /\ length (values_of_condition "No-Stim" (select_cell param "PD" long_df))
              <> 1
           /\ length (values_of_condition "Stim" (select_cell param "PD" long_df))
              <> 1.
Proof.
  unfold locomotion_results. split.
  - intros H. apply for_each_raises_inv in H. destruct H as (param & Hp & Hb).
    apply locomotion_cell_raises_iff in Hb. destruct Hb as [-> Hne].
    split; [reflexivity |]. now exists param.
  - intros (-> & param & Hp & Hne). apply for_each_raises.
    + intros k e' _ Hb. now apply locomotion_cell_raises_iff in Hb.
    + exists param. split; [exact Hp |]. now apply locomotion_cell_raises_iff.
Qed.

(** X14.  When both locomotion parameters have PD arms of one length, the
    loop returns at most one row per parameter, in the order of
    [LOCOMOTION_PARAMS]: the t-test row of each parameter that has PD
    records, and nothing for a parameter that has none. *)
Theorem locomotion_results_rows (long_df : DataFrame) :
  (forall param,
      In param LOCOMOTION_PARAMS ->
      length (values_of_condition "No-Stim" (select_cell param "PD" long_df))
      = length (values_of_condition "Stim" (select_cell param "PD" long_df))) ->
  locomotion_results long_df
  = Returns (flat_map (fun param =>
                         match select_cell param "PD" long_df with
                         | [] => []
                         | _ :: _ => [locomotion_row long_df param]
                         end) LOCOMOTION_PARAMS)
  /\ exists rows, locomotion_results long_df = Returns rows /\ length rows <= 2.
Proof.
  intros Hlen.
  assert (H : locomotion_results long_df
              = Returns (flat_map (fun param =>
                                     match select_cell param "PD" long_df with
                                     | [] => []
                                     | _ :: _ => [locomotion_row long_df param]
                                     end) LOCOMOTION_PARAMS)).
  { unfold locomotion_results. apply for_each_flat_map. intros param Hp.
    destruct (select_cell param "PD" long_df) as [| r rest] eqn:E.
    - unfold locomotion_cell. now rewrite E.
    - rewrite locomotion_cell_paired; [reflexivity | congruence | now apply Hlen]. }
  split; [exact H |]. eexists. split; [exact H |].
  cbn [LOCOMOTION_PARAMS flat_map].
  destruct (select_cell "MeanSpeed_Overall_cm/s" "PD" long_df),
           (select_cell "Entries_ClosedArms" "PD" long_df); cbn; lia.
Qed.

End LocomotionLoopFacts.

Lemma locomotion_results_rows_witness :
  (forall param,
      In param LOCOMOTION_PARAMS ->
      length (values_of_condition "No-Stim" (select_cell param "PD" sample_two))
      = length (values_of_condition "Stim" (select_cell param "PD" sample_two)))
  /\ @locomotion_results (stand_in 0.5) sample_two
     = Returns [@locomotion_row (stand_in 0.5) sample_two "Entries_ClosedArms"].
Proof.
  assert (H : forall param,
             In param LOCOMOTION_PARAMS ->
             length (values_of_condition "No-Stim" (select_cell param "PD" sample_two))
             = length (values_of_condition "Stim" (select_cell param "PD" sample_two))).
  { intros param [<- | [<- | []]]; reflexivity. }
  split; [exact H |].
  rewrite (proj1 (@locomotion_results_rows (stand_in 0.5) sample_two H)).
  reflexivity.
Defined.

(* ================================================================== *)
(** * The pivot and the subject-level tables *)
(* ================================================================== *)

Lemma insert_sorted_perm (x : string) (l : list string) :
  Permutation (insert_sorted x l) (x :: l).
Proof.
  induction l as [| y l IH]; cbn [insert_sorted]; [apply Permutation_refl |].
  destruct (String.leb x y); [apply Permutation_refl |].
  eapply perm_trans; [apply perm_skip, IH | apply perm_swap].
Qed.

Lemma sort_strings_perm (l : list string) : Permutation (sort_strings l) l.
Proof.
  unfold sort_strings. induction l as [| x l IH]; cbn [fold_right];
    [constructor |].
  eapply perm_trans; [apply insert_sorted_perm | now apply perm_skip].
Qed.

Lemma insert_sorted_sorted (x : string) (l : list string) :
  Sorted (fun a b => String.leb a b = true) l ->
  Sorted (fun a b => String.leb a b = true) (insert_sorted x l).
Proof.
  induction 1 as [| y l Hs IH Hhd]; cbn [insert_sorted].
  - repeat constructor.
  - destruct (String.leb x y) eqn:E.
    + constructor; [now constructor | now constructor].
    + constructor; [exact IH |].
      assert (Hyx : String.leb y x = true)
        by (destruct (String.leb_total x y); congruence).
      destruct l as [| z l]; cbn [insert_sorted].
      * now constructor.
      * destruct (String.leb x z); constructor; [exact Hyx |].
        now inversion Hhd.
Qed.

Lemma sort_strings_sorted (l : list string) :
  Sorted (fun a b => String.leb a b = true) (sort_strings l).
Proof.
  unfold sort_strings. induction l as [| x l IH]; cbn [fold_right];
    [constructor | now apply insert_sorted_sorted].
Qed.

Lemma unique_NoDup (l : list string) : NoDup (unique l).
Proof. apply (unique_aux_NoDup l []). Qed.

Lemma sorted_filter_unique (f : string -> bool) (l : list string) :
  NoDup (sort_strings (filter f (unique l)))
  /\ forall x, In x (sort_strings (filter f (unique l))) <-> In x l /\ f x = true.
Proof.
  split.
  - eapply Permutation_NoDup; [apply Permutation_sym, sort_strings_perm |].
    apply NoDup_filter, unique_NoDup.
  - intros x. split.
    + intros H. apply (Permutation_in _ (sort_strings_perm _)) in H.
      apply filter_In in H. destruct H as [H Hf].
      split; [now apply unique_aux_sound in H | exact Hf].
    + intros [H Hf].
      apply (Permutation_in _ (Permutation_sym (sort_strings_perm _))).
      apply filter_In. split; [now apply unique_complete | exact Hf].
Qed.

Section PivotFacts.

Context {lib : StatsLib}.

(** X15.  The pivot has one row per subject, however many records a
    subject has: its index lists subjects of the cell in ascending order
    without repetition, its columns are conditions of the cell without
    repetition, and every column has one entry per index label. *)
Theorem pivot_table_one_row_per_subject (temp : DataFrame) :
  let wide := pivot_table temp in
  NoDup (w_index wide)
  /\ Sorted (fun a b => String.leb a b = true) (w_index wide)
  /\ (forall s, In s (w_index wide) -> In s (map Subject temp))
  /\ NoDup (map fst (w_columns wide))
  /\ (forall c, In c (map fst (w_columns wide)) -> In c (map Condition temp))
  /\ (forall kv, In kv (w_columns wide) -> length (snd kv) = length (w_index wide)).
Proof.
  cbv zeta. unfold pivot_table. cbn [w_index w_columns].
  rewrite map_map. cbn [fst]. rewrite map_id.
  split; [apply sorted_filter_unique |].
  split; [apply sort_strings_sorted |].
  split; [intros s Hs; now apply sorted_filter_unique in Hs |].
  split; [apply sorted_filter_unique |].
  split; [intros c Hc; now apply sorted_filter_unique in Hc |].
  intros kv Hkv. apply in_map_iff in Hkv. destruct Hkv as (c & <- & _).
  cbn [snd]. apply length_map.
Qed.

Lemma getcol_missing (name : string) (temp : DataFrame) :
  (forall r, In r temp -> Condition r <> name) ->
  getcol name (pivot_table temp) = Raises KeyError.
Proof.
  intros Hno. unfold getcol.
  destruct (find _ (w_columns (pivot_table temp))) as [kv |] eqn:F; [| reflexivity].
  exfalso. apply find_some in F. destruct F as [Hin Heq].
  apply String.eqb_eq in Heq.
  assert (Hc : In name (map Condition temp)).
  { unfold pivot_table in Hin. cbn [w_columns] in Hin.
    apply in_map_iff in Hin. destruct Hin as (c & <- & Hc).
    cbn [fst] in Heq. subst c. now apply sorted_filter_unique in Hc. }
  apply in_map_iff in Hc. destruct Hc as (r & Hr & Hin'). exact (Hno r Hin' Hr).
Qed.

End PivotFacts.

Section SubjectTablesFacts.

Context {lib : StatsLib}.

(** X16.  A primary parameter whose PD records all belong to one
    condition stops both subject-level loops: the pivot has no column for
    the other condition, and reading it raises KeyError. *)
Theorem missing_condition_raises_KeyError (long_df : DataFrame) (param : string) :
  let temp := select_cell param "PD" long_df in
  temp <> [] ->
  (forall r, In r temp -> Condition r <> "Stim")
  \/ (forall r, In r temp -> Condition r <> "No-Stim") ->
  within_subject_cell long_df param = Raises KeyError
  /\ subject_level_cell long_df param = Raises KeyError.
Proof.
  intros temp Hne Hmiss.
  unfold within_subject_cell, subject_level_cell. fold temp.
  destruct temp as [| r rest] eqn:E; [congruence |]. rewrite <- E in *.
  destruct Hmiss as [Hs | Hn].
  - rewrite (getcol_missing "Stim" temp Hs). split; reflexivity.
  - rewrite (getcol_missing "No-Stim" temp Hn).
    destruct (getcol "Stim" (pivot_table temp)) as [stim | e] eqn:G;
      [split; reflexivity |].
    unfold getcol in G. destruct (find _ _); [discriminate |].
    injection G as <-. split; reflexivity.
Qed.

Lemma for_each_nothing {K R : Type} (body : K -> outcome (list R)) (keys : list K) :
  (forall k, In k keys -> body k = Returns []) ->
  for_each body keys = Returns [].
Proof.
  intros H. rewrite (for_each_flat_map body (fun _ => []) keys H).
  f_equal. clear H. induction keys as [| k keys IH]; [reflexivity | exact IH].
Qed.

(** X17.  When no primary parameter has a PD record, both loops collect
    nothing; the subject-level table S3 is then silently not written
    (line 202 tests the list), while the within-subject table S5 raises
    ValueError at the unguarded [pd.concat] of line 334. *)
Theorem no_primary_records_S3_skipped_S5_raises (long_df : DataFrame) :
  (forall param, In param PRIMARY_EPM_PARAMS ->
                 select_cell param "PD" long_df = []) ->
  subject_tables long_df = Returns []
  /\ subject_level_df long_df = Returns None
  /\ within_subject_tables long_df = Returns []
  /\ within_subject_df long_df = Raises ValueError.
Proof.
  intros Hnone.
  assert (Hs : subject_tables long_df = Returns []).
  { apply for_each_nothing. intros param Hp.
    unfold subject_level_cell. now rewrite (Hnone param Hp). }
  assert (Hw : within_subject_tables long_df = Returns []).
  { apply for_each_nothing. intros param Hp.
    unfold within_subject_cell. now rewrite (Hnone param Hp). }
  unfold subject_level_df, within_subject_df. rewrite Hs, Hw.
  repeat split; reflexivity.
Qed.

Lemma cells_agree (long_df : DataFrame) (param : string) :
  match within_subject_cell long_df param, subject_level_cell long_df param with
  | Returns ts, Returns ss => map as_subject_table ts = ss
  | Raises e, Raises e' => e = e'
  | _, _ => False
  end.
Proof.
  unfold within_subject_cell, subject_level_cell.
  destruct (select_cell param "PD" long_df) as [| r rest]; [reflexivity |].
  destruct (getcol "Stim" _) as [stim | e]; cbn [bind]; [| reflexivity].
  destruct (getcol "No-Stim" _) as [no_stim | e]; cbn [bind]; reflexivity.
Qed.

(** X18.  The loops behind S3 (lines 184-200) and S5 (lines 311-332)
    succeed or fail together, with the same exception; when they succeed,
    S5 is S3 with the percent-change column added: same pivots, same
    deltas, same parameters, in the same order. *)
Theorem within_subject_tables_extend_subject_tables (long_df : DataFrame) :
  match within_subject_tables long_df, subject_tables long_df with
  | Returns ts, Returns ss => map as_subject_table ts = ss
  | Raises e, Raises e' => e = e'
  | _, _ => False
  end.
Proof.
  unfold within_subject_tables, subject_tables.
  induction PRIMARY_EPM_PARAMS as [| param params IH]; cbn [for_each];
    [reflexivity |].
  pose proof (cells_agree long_df param) as Hc.
  destruct (within_subject_cell long_df param) as [ts | e],
           (subject_level_cell long_df param) as [ss | e'];
    cbn [bind]; try contradiction; [| exact Hc].
  destruct (for_each (within_subject_cell long_df) params) as [ts' | e],
           (for_each (subject_level_cell long_df) params) as [ss' | e'];
    cbn [bind]; try contradiction; [| exact IH].
  rewrite map_app. now rewrite Hc, IH.
Qed.

End SubjectTablesFacts.

Lemma missing_condition_raises_KeyError_witness :
  select_cell "Time_OpenArms" "PD" sample_baseline_only <> []
  /\ (forall r, In r (select_cell "Time_OpenArms" "PD" sample_baseline_only) ->
                Condition r <> "Stim")
  /\ @within_subject_cell (stand_in 0.5) sample_baseline_only "Time_OpenArms"
     = Raises KeyError.
Proof.
  assert (H : forall r, In r (select_cell "Time_OpenArms" "PD" sample_baseline_only) ->
                        Condition r <> "Stim").
  { intros r [<- | [<- | []]]; discriminate. }
  split; [vm_compute; discriminate |]. split; [exact H |].
  apply (@missing_condition_raises_KeyError (stand_in 0.5) sample_baseline_only
           "Time_OpenArms"); [vm_compute; discriminate | left; exact H].
Defined.

Lemma no_primary_records_S3_skipped_S5_raises_witness :
  (forall param, In param PRIMARY_EPM_PARAMS ->
                 select_cell param "PD" sample_two = [])
  /\ @subject_level_df (stand_in 0.5) sample_two = Returns None
  /\ @within_subject_df (stand_in 0.5) sample_two = Raises ValueError.
Proof.
  assert (H : forall param, In param PRIMARY_EPM_PARAMS ->
                            select_cell param "PD" sample_two = []).
  { intros param [<- | [<- | []]]; reflexivity. }
  split; [exact H |].
  destruct (@no_primary_records_S3_skipped_S5_raises (stand_in 0.5) sample_two H)
    as (_ & H3 & _ & H5).
  split; assumption.
Defined.

Lemma results_abort_on_unbalanced_cell_witness :
  unbalanced (select_cell "Time_OpenArms" "PD" sample_unequal)
  /\ @results (stand_in 0.5) sample_unequal = Raises ValueError.
Proof.
  assert (H : unbalanced (select_cell "Time_OpenArms" "PD" sample_unequal)).
  { repeat split; vm_compute; lia. }
  split; [exact H |].
  apply (proj2 (@results_abort_on_unbalanced_cell (stand_in 0.5) sample_unequal
                  ValueError)).
  split; [reflexivity |]. exists "Time_OpenArms", "PD". split; [now left | exact H].
Defined.

Lemma locomotion_results_abort_on_unequal_arms_witness :
  @locomotion_results (stand_in 0.5) sample_locomotion_two_three = Raises ValueError
  /\ @paired_stats (stand_in 0.5)
                   (select_cell "Entries_ClosedArms" "PD" sample_locomotion_two_three)
     = Returns None
  /\ (exists row, @locomotion_results (stand_in 0.5) sample_locomotion_unequal
                  = Returns [row]).
Proof.
  split; [| split; [reflexivity | eexists; reflexivity]].
  apply (proj2 (@locomotion_results_abort_on_unequal_arms (stand_in 0.5)
                  sample_locomotion_two_three ValueError)).
  split; [reflexivity |]. exists "Entries_ClosedArms".
  split; [right; now left | vm_compute; lia].
Defined.
